(** * The dashboard delegate

    A shallow embedding of [dashboard_delegate.py]: the command interpreter
    [DashboardDelegate.execute_command], the status line built by
    [DashboardDelegate.make_statusline], and the worker thread
    [DashboardDelegateThread] with the fields it shares with the dashboard.

    The game controller, the Arduino manager, the detector, the [chess]
    library and the dashboard helpers are imported by the file and not part of
    it: they are taken as a record of collaborators ([Collab]), and every
    theorem holds for every such record. *)

From Stdlib Require Import ZArith NArith Ascii String List Bool Lia.
From stdpp Require Import base option list strings gmap.

(** ** Python strings

    Command text is a string of 8-bit characters, read as the code points
    U+0000 to U+00FF. [isspace], [lower] and [upper] are Python's on that
    range. [lower] stays in the range. [upper] leaves it: the upper-case form
    of U+00B5 is U+039C, that of U+00FF is U+0178, and that of U+00DF is the
    two letters SS; so the result of [upper] is a list of code points. *)
Module str.

(** A string that may hold characters beyond U+00FF: its code points. *)
Definition wide : Type := list N.

(** A string of the range, as its code points. *)
Fixpoint code_points (s : string) : wide :=
  match s with
  | EmptyString => []
  | String c s' => N_of_ascii c :: code_points s'
  end.

Definition isspace (c : ascii) : bool :=
  let n := N_of_ascii c in
  ((9 <=? n) && (n <=? 13) || (28 <=? n) && (n <=? 32) || (n =? 133) || (n =? 160))%N.

Definition lower_char (c : ascii) : ascii :=
  let n := N_of_ascii c in
  if ((65 <=? n) && (n <=? 90) || (192 <=? n) && (n <=? 222) && negb (n =? 215))%N
  then ascii_of_N (n + 32) else c.

Definition upper_char (c : ascii) : wide :=
  let n := N_of_ascii c in
  if (n =? 181)%N then [924%N]
  else if (n =? 223)%N then [83%N; 83%N]
  else if (n =? 255)%N then [376%N]
  else if ((97 <=? n) && (n <=? 122) || (224 <=? n) && (n <=? 254) && negb (n =? 247))%N
  then [(n - 32)%N] else [n].

Fixpoint lower (s : string) : string :=
  match s with
  | EmptyString => EmptyString
  | String c s' => String (lower_char c) (lower s')
  end.

Fixpoint upper (s : string) : wide :=
  match s with
  | EmptyString => []
  | String c s' => upper_char c ++ upper s'
  end.

Fixpoint lstrip (s : string) : string :=
  match s with
  | EmptyString => EmptyString
  | String c s' => if isspace c then lstrip s' else s
  end.

Fixpoint rstrip (s : string) : string :=
  match s with
  | EmptyString => EmptyString
  | String c s' =>
      match rstrip s' with
      | EmptyString => if isspace c then EmptyString else String c EmptyString
      | r => String c r
      end
  end.

(** [s.strip()]: white space removed at both ends. *)
Definition strip (s : string) : string := rstrip (lstrip s).

(** [s.split(sep)] for a separator of one character: every occurrence of
    [sep] ends a token, so the result is never empty and two separators in a
    row enclose an empty token. *)
Fixpoint split (sep : ascii) (s : string) : list string :=
  match s with
  | EmptyString => [EmptyString]
  | String c s' =>
      if decide (c = sep) then EmptyString :: split sep s'
      else match split sep s' with
           | tok :: rest => String c tok :: rest
           | [] => [String c EmptyString]
           end
  end.

(** [sep.join(l)]. *)
Definition join (sep : string) (l : list string) : string := String.concat sep l.

End str.

(** ** Exceptions and results *)

(** The exceptions the file can meet: [IndexError] from [args[i]],
    [ValueError] from [chess.parse_square], [KeyError] from an enum lookup by
    name (the key is the name looked up, which [upper] made), [SystemExit] from [sys.exit], and [Error cls msg] for any other
    exception class derived from [Exception] that a collaborator raises. *)
Inductive PyExn : Type :=
  | IndexError
  | ValueError (msg : string)
  | KeyError (key : str.wide)
  | SystemExit (status : Z)
  | Error (cls msg : string).

(** [isinstance(e, Exception)]: [SystemExit] derives from [BaseException]
    only, so [except Exception] lets it through. *)
Definition is_Exception (e : PyExn) : bool :=
  match e with
  | SystemExit _ => false
  | _ => true
  end.

Inductive Result (A : Type) : Type :=
  | Return (a : A)
  | Raise (e : PyExn).
Arguments Return {A} a.
Arguments Raise {A} e.

(** ** The controller's states

    [State] is declared in [game_controller], which the file imports. These
    are the five members the file names; [OtherState name] stands for any
    further member of that enum. *)
Inductive State : Type :=
  | STARTING
  | READY
  | HUMAN_TURN
  | COMPUTER_TURN
  | ERROR
  | OtherState (name : string).

#[global] Instance State_eq_dec : EqDecision State.
Proof. solve_decision. Defined.

Definition State_code (s : State) : nat + string :=
  match s with
  | STARTING => inl 0
  | READY => inl 1
  | HUMAN_TURN => inl 2
  | COMPUTER_TURN => inl 3
  | ERROR => inl 4
  | OtherState name => inr name
  end.

Definition State_decode (x : nat + string) : State :=
  match x with
  | inl 0 => STARTING
  | inl 1 => READY
  | inl 2 => HUMAN_TURN
  | inl 3 => COMPUTER_TURN
  | inl _ => ERROR
  | inr name => OtherState name
  end.

#[global] Instance State_countable : Countable State.
Proof. apply (inj_countable' State_code State_decode). by intros []. Defined.

(** [state.name]. *)
Definition State_name (s : State) : string :=
  match s with
  | STARTING => "STARTING"
  | READY => "READY"
  | HUMAN_TURN => "HUMAN_TURN"
  | COMPUTER_TURN => "COMPUTER_TURN"
  | ERROR => "ERROR"
  | OtherState name => name
  end.

Definition GAME_STATE_STATUSLINE_COLORS : gmap State string :=
  {[ STARTING := "ansiblack bg:ansigray";
     READY := "bg:ansigreen";
     HUMAN_TURN := "bg:#FF69B4";
     COMPUTER_TURN := "ansiblack bg:#66AAFF";
     ERROR := "bg:ansired" ]}.

(** [d.get(key, default)]. *)
Definition dict_get {K V : Type} `{Countable K} (d : gmap K V) (key : K) (dflt : V) : V :=
  default dflt (d !! key).

(** ** Collaborators *)

(** A [chess] square is an [int]. *)
Definition Square : Type := nat.

(** What the file imports and calls. [World] is the state behind the game
    controller (hardware, camera, detector); a call takes the world and gives
    its result, or the exception it raises, and the world after it.
    [detect_piece_positions] is handed the thread's [show_image] as its [show]
    argument: besides its result it gives the images it posted through it.
    Images are values: a frame is not changed by the calls it is passed to. *)
Record Collab : Type := {
  World : Type;
  Button : Type;
  LEDPallete : Type;
  Image : Type;
  Positions : Type;
  Bitboard : Type;
  Board : Type;
  (* chess *)
  parse_square : string -> Result Square;
  square_name : Square -> string;
  flip_horizontal : Bitboard -> Bitboard;
  flip_vertical : Bitboard -> Bitboard;
  Board_transform : Board -> (Bitboard -> Bitboard) -> Board;
  (* arduino_manager: [Button[name]], [LEDPallete[name]] and [member.name] *)
  Button_getitem : str.wide -> option Button;
  Button_name : Button -> string;
  LEDPallete_getitem : str.wide -> option LEDPallete;
  LEDPallete_name : LEDPallete -> string;
  (* game_controller: [game.state], [game.arduino.gantry_pos] (as [str]
     prints it) and [game.arduino.electromagnet_enabled] *)
  game_state : World -> State;
  gantry_pos : World -> string;
  electromagnet_enabled : World -> bool;
  arduino_update : World -> Result unit * World;
  move_to_square : Square -> bool -> World -> Result unit * World;
  set_electromagnet : bool -> bool -> World -> Result unit * World;
  set_button_light : Button -> bool -> World -> Result unit * World;
  set_led_pallete : LEDPallete -> World -> Result unit * World;
  set_autoplay : bool -> World -> Result unit * World;
  get_image : nat -> World -> Result Image * World;
  detect_piece_positions : Image -> World -> Result Positions * list (Image * string) * World;
  generate_board : Positions -> World -> Result Board * World;
}.

(** ** The interpreter's effects

    A computation runs on an environment: the collaborators' world and the
    trace of what was asked of them, in order. It returns a value or raises. *)
Section Delegate.

Variable C : Collab.

(** An argument of [print]. *)
Inductive PrintArg : Type :=
  | PStr (s : string)
  | PErr (e : PyExn)
  | PBoard (b : Board C).

(** [EvPrint] is [print_to_dashboard]; [EvShowImage] is the thread's
    [show_image], which posts the helper [show_image] to the main thread's
    loop with [call_soon_threadsafe]. The others are calls to the game
    controller. *)
Inductive Event : Type :=
  | EvPrint (args : list PrintArg)
  | EvShowImage (img : Image C) (title : string)
  | EvArduinoUpdate
  | EvMoveToSquare (square : Square) (block : bool)
  | EvSetElectromagnet (enabled : bool) (block : bool)
  | EvSetButtonLight (button : Button C) (enabled : bool)
  | EvSetLedPallete (pallete : LEDPallete C)
  | EvSetAutoplay (enabled : bool)
  | EvGetImage (retry : nat)
  | EvDetectPiecePositions (img : Image C)
  | EvGenerateBoard (positions : Positions C).

Record Env : Type := mkEnv {
  world : World C;
  trace : list Event;
}.

Definition M (A : Type) : Type := Env -> Result A * Env.

Definition ret {A : Type} (a : A) : M A := fun e => (Return a, e).

Definition raise {A : Type} (x : PyExn) : M A := fun e => (Raise x, e).

Definition bind {A B : Type} (m : M A) (k : A -> M B) : M B :=
  fun e =>
    match m e with
    | (Return a, e') => k a e'
    | (Raise x, e') => (Raise x, e')
    end.

#[global] Instance M_ret : MRet M := @ret.
#[global] Instance M_bind : MBind M := fun A B k m => bind m k.

(** A value, or the exception, of a pure library call. *)
Definition lift {A : Type} (r : Result A) : M A := fun e => (r, e).

Definition emit (ev : Event) : M unit :=
  fun e => (Return tt, mkEnv (world e) (trace e ++ [ev])).

(** A call to the controller: recorded, then performed on the world. *)
Definition call {A : Type} (ev : Event) (f : World C -> Result A * World C) : M A :=
  fun e => let (r, w) := f (world e) in (r, mkEnv w (trace e ++ [ev])).

(** An attribute of the controller. *)
Definition attr {A : Type} (f : World C -> A) : M A :=
  fun e => (Return (f (world e)), e).

(** [try: m  except Exception as err: ...], the outcome handed on as a value. *)
Definition try_except {A : Type} (m : M A) : M (PyExn + A) :=
  fun e =>
    match m e with
    | (Return a, e') => (Return (inr a), e')
    | (Raise x, e') => if is_Exception x then (Return (inl x), e') else (Raise x, e')
    end.

(** [args[i]]. *)
Definition subscript (args : list string) (i : nat) : M string :=
  match args !! i with
  | Some a => ret a
  | None => raise IndexError
  end.

(** [Enum[name]]. *)
Definition getitem {A : Type} (members : str.wide -> option A) (name : str.wide) : M A :=
  match members name with
  | Some m => ret m
  | None => raise (KeyError name)
  end.

Definition print (args : list PrintArg) : M unit := emit (EvPrint args).

Definition show_image (img : Image C) (title : string) : M unit :=
  emit (EvShowImage img title).

Definition ON_OFF (enabled : bool) : string := if enabled then "ON" else "OFF".

(** ** [DashboardDelegate] *)

Definition make_statusline : M (string * string) :=
  call EvArduinoUpdate (arduino_update C);;
  state ← attr (game_state C);
  text ←
    (if decide (state = STARTING) then ret "Starting..."
     else
       gantry ← attr (gantry_pos C);
       magnet ← attr (electromagnet_enabled C);
       ret (str.join " / "
              (map (str.join " ")
                 [ ["State:"; State_name state];
                   ["Gantry:"; gantry];
                   ["Magnet:"; ON_OFF magnet] ])));
  ret (dict_get GAME_STATE_STATUSLINE_COLORS state "ansiblack bg:ansiwhite", text).

(** [game.detector.detect_piece_positions(img, show=self.show_image)]: the
    call, then the images the detector posted through [show]. *)
Definition detect (img : Image C) : M (Positions C) :=
  fun e =>
    let '(r, shown, w) := detect_piece_positions C img (world e) in
    (r, mkEnv w (trace e ++ EvDetectPiecePositions img
                         :: map (fun p => EvShowImage p.1 p.2) shown)).

(** The [camshow] branch. *)
Definition camshow : M unit :=
  print [PStr "Fetching image..."];;
  fetched ← try_except (call (EvGetImage 0) (get_image C 0));
  match fetched with
  | inl err => print [PStr "Failed to load image:"; PErr err]
  | inr img =>
      print [PStr "Recognizing board..."];;
      detected ←
        try_except
          (positions ← detect img;
           call (EvGenerateBoard positions) (generate_board C positions));
      match detected with
      | inl err =>
          show_image img "Failed to Detect Piece Positions:";;
          print [PStr "Failed to detect piece positions:"; PErr err]
      | inr board =>
          print [PStr "Board (computer perspective):"];;
          print [PBoard (Board_transform C
                           (Board_transform C board (flip_horizontal C))
                           (flip_vertical C))]
      end
  end.

(** The branches of [execute_command], on the head [cmd], its arguments and
    the raw text [command]. *)
Definition dispatch (cmd : string) (args : list string) (command : string) : M unit :=
  if decide (cmd = "move") then
    name ← subscript args 0;
    square ← lift (parse_square C name);
    print [PStr "Moving to square:"; PStr (square_name C square)];;
    call (EvMoveToSquare square false) (move_to_square C square false)
  else if decide (cmd = "magnet") then
    a ← subscript args 0;
    let enabled := bool_decide (a = "on") in
    print [PStr "Turning magnet"; PStr (ON_OFF enabled)];;
    a' ← subscript args 0;
    call (EvSetElectromagnet (bool_decide (a' = "on")) false)
         (set_electromagnet C (bool_decide (a' = "on")) false)
  else if decide (cmd = "bled") then
    a ← subscript args 1;
    let enabled := bool_decide (a = "on") in
    name ← subscript args 0;
    button ← getitem (Button_getitem C) (str.upper name);
    print [PStr "Turning button light"; PStr (Button_name C button); PStr (ON_OFF enabled)];;
    call (EvSetButtonLight button enabled) (set_button_light C button enabled)
  else if decide (cmd = "leds") then
    name ← subscript args 0;
    pallete ← getitem (LEDPallete_getitem C) (str.upper name);
    print [PStr "Setting LEDs to Pallete:"; PStr (LEDPallete_name C pallete)];;
    call (EvSetLedPallete pallete) (set_led_pallete C pallete)
  else if decide (cmd = "autoplay") then
    a ← subscript args 0;
    call (EvSetAutoplay (bool_decide (a = "on"))) (set_autoplay C (bool_decide (a = "on")))
  else if decide (cmd = "camshow") then camshow
  else if decide (cmd = "exit") then raise (SystemExit 0)
  else print [PStr ("Unknown Command: '" +:+ command +:+ "'")].

(** [cmd, *args = command.strip().lower().split(' ')]. *)
Definition parse_command (command : string) : list string :=
  str.split " " (str.lower (str.strip command)).

Definition execute_command (command : string) : M unit :=
  match parse_command command with
  | cmd :: args => dispatch cmd args command
  | [] => raise (ValueError "not enough values to unpack (expected at least 1, got 0)")
  end.

End Delegate.

Arguments PStr {C} s.
Arguments PErr {C} e.
Arguments PBoard {C} b.
Arguments EvPrint {C} args.
Arguments EvShowImage {C} img title.
Arguments EvArduinoUpdate {C}.
Arguments EvMoveToSquare {C} square block.
Arguments EvSetElectromagnet {C} enabled block.
Arguments EvSetButtonLight {C} button enabled.
Arguments EvSetLedPallete {C} pallete.
Arguments EvSetAutoplay {C} enabled.
Arguments EvGetImage {C} retry.
Arguments EvDetectPiecePositions {C} img.
Arguments EvGenerateBoard {C} positions.
Arguments mkEnv {C} world trace.
Arguments world {C} e.
Arguments trace {C} e.

(** ** [DashboardDelegateThread]

    The fields the worker thread shares with the dashboard. They are plain
    attributes: the file takes no lock around them ([wait_for_ready] is held
    only while the controller is built). *)
Record Thread : Type := mkThread {
  status_line : string;
  status_line_color : string;
  status_line_stale : bool;
  commands : list string;
}.

(** The class attributes' defaults, and [__init__]'s empty deque. *)
Definition Thread_init : Thread := mkThread "Loading..." "bg:ansigray" true [].

Definition get_status_line (t : Thread) : Thread * string :=
  (mkThread (status_line t) (status_line_color t) true (commands t), status_line t).

Definition get_status_line_color (t : Thread) : Thread * string :=
  (t, status_line_color t).

(** Modelled from the spec: the producer of [commands] is the dashboard, which
    is not part of the file; [enqueue] appends to the tail of the deque. *)
Definition enqueue (command : string) (t : Thread) : Thread :=
  mkThread (status_line t) (status_line_color t) (status_line_stale t)
           (commands t ++ [command]).

(** Where the worker stands in [run]. The tuple assignment
    [self.status_line_color, self.status_line = delegate.make_statusline()]
    stores the color, then the text: [AtStoreColor] and [AtStoreText] are the
    points before each store. [Dead e] is the thread after [e] left [run]. *)
Inductive Pc : Type :=
  | AtInit
  | AtStale
  | AtStoreColor (snapshot : string * string)
  | AtStoreText (text : string)
  | AtUpdate
  | AtDrain
  | Dead (e : PyExn).

(** What a step shows. *)
Inductive Label : Type :=
  | LInit
  | LFresh
  | LComputed (snapshot : string * string)
  | LStoreColor (color : string)
  | LStoreText (text : string)
  | LUpdated
  | LEmpty
  | LHandled (command : string)
  | LHalted
  | LEnqueued (command : string)
  | LLine (text : string)
  | LColor (color : string).

Section Worker.

Variable C : Collab.

Record Sys : Type := mkSys {
  thread : Thread;
  pc : Pc;
  env : Env C;
}.

(** The thread as [start] finds it, the controller's world being [w]. *)
Definition Sys_init (w : World C) : Sys := mkSys Thread_init AtInit (mkEnv w []).

(** The worker's next point after a computation: [next] when it returned,
    [Dead] when it raised. *)
Definition after {A : Type} (r : Result A) (next : A -> Pc) : Pc :=
  match r with
  | Return a => next a
  | Raise e => Dead e
  end.

(** One step of [run]. *)
Definition worker_step (s : Sys) : Sys * Label :=
  let t := thread s in
  match pc s with
  | AtInit =>
      let (r, e) := call C EvArduinoUpdate (arduino_update C) (env s) in
      (mkSys t (after r (fun _ => AtStale)) e, LInit)
  | AtStale =>
      if status_line_stale t then
        match make_statusline C (env s) with
        | (Return snapshot, e) => (mkSys t (AtStoreColor snapshot) e, LComputed snapshot)
        | (Raise x, e) => (mkSys t (Dead x) e, LHalted)
        end
      else (mkSys t AtUpdate (env s), LFresh)
  | AtStoreColor snapshot =>
      (mkSys (mkThread (status_line t) snapshot.1 (status_line_stale t) (commands t))
             (AtStoreText snapshot.2) (env s),
       LStoreColor snapshot.1)
  | AtStoreText text =>
      (mkSys (mkThread text (status_line_color t) (status_line_stale t) (commands t))
             AtUpdate (env s),
       LStoreText text)
  | AtUpdate =>
      let (r, e) := call C EvArduinoUpdate (arduino_update C) (env s) in
      (mkSys t (after r (fun _ => AtDrain)) e, LUpdated)
  | AtDrain =>
      match commands t with
      | [] => (mkSys t AtStale (env s), LEmpty)
      | command :: rest =>
          let t' := mkThread (status_line t) (status_line_color t) (status_line_stale t) rest in
          let (r, e) := execute_command C command (env s) in
          (mkSys t' (after r (fun _ => AtDrain)) e, LHandled command)
      end
  | Dead x => (s, LHalted)
  end.

(** What the two threads do, one at a time. *)
Inductive Action : Type :=
  | Worker
  | Enqueue (command : string)
  | GetStatusLine
  | GetStatusLineColor.

Definition step (a : Action) (s : Sys) : Sys * Label :=
  match a with
  | Worker => worker_step s
  | Enqueue command => (mkSys (enqueue command (thread s)) (pc s) (env s), LEnqueued command)
  | GetStatusLine =>
      let (t, text) := get_status_line (thread s) in (mkSys t (pc s) (env s), LLine text)
  | GetStatusLineColor =>
      let (t, color) := get_status_line_color (thread s) in (mkSys t (pc s) (env s), LColor color)
  end.

Fixpoint run (sched : list Action) (s : Sys) : Sys * list Label :=
  match sched with
  | [] => (s, [])
  | a :: sched' =>
      let (s1, l) := step a s in
      let (s2, ls) := run sched' s1 in
      (s2, l :: ls)
  end.

End Worker.

Arguments mkSys {C} thread pc env.
Arguments thread {C} s.
Arguments pc {C} s.
Arguments env {C} s.

(** ** Reading a run *)

(** The commands handed to [execute_command], in order. *)
Definition handled (ls : list Label) : list string :=
  omap (fun l => match l with LHandled c => Some c | _ => None end) ls.

(** The commands submitted, in order. *)
Definition enqueued (sched : list Action) : list string :=
  omap (fun a => match a with Enqueue c => Some c | _ => None end) sched.

(** The snapshots [make_statusline] returned, in order. *)
Definition computed (ls : list Label) : list (string * string) :=
  omap (fun l => match l with LComputed p => Some p | _ => None end) ls.

Definition is_worker (a : Action) : bool :=
  match a with
  | Worker => true
  | _ => false
  end.

Definition worker_steps (sched : list Action) : nat :=
  length (List.filter is_worker sched).

Definition is_read (l : Label) : bool :=
  match l with
  | LLine _ | LColor _ => true
  | _ => false
  end.

(** What the dashboard reads, in its own order. *)
Definition reads (ls : list Label) : list Label := List.filter is_read ls.

(** The (color, text) pairs a reader sees: a color read and the text read
    that follows it. *)
Fixpoint pairs (rs : list Label) : list (string * string) :=
  match rs with
  | LColor c :: (LLine t :: _) as rs' => (c, t) :: pairs rs'
  | _ :: rs' => pairs rs'
  | [] => []
  end.

Definition observed (ls : list Label) : list (string * string) := pairs (reads ls).

(** ** A concrete set of collaborators

    Stand-ins on which the model runs: squares are named as [chess] names
    them, the controller's state follows the number of [arduino.update()]
    calls, and the camera and the detector work or fail as the world says. *)
Module demo.

Inductive button : Type := PLAYER | COMPUTER | HINT.

Inductive pallete : Type := IDLE | RAINBOW.

Record world : Type := mkWorld {
  updates : nat;
  magnet : bool;
  camera_ok : bool;
  detector_ok : bool;
}.

Definition w0 : world := mkWorld 0 false true true.

(** [chess.parse_square]: the index of the name in a1, b1, ..., h8. *)
Definition parse_square (name : string) : Result Square :=
  match name with
  | String f (String r EmptyString) =>
      let fi := N_of_ascii f in
      let ri := N_of_ascii r in
      if ((97 <=? fi) && (fi <=? 104) && (49 <=? ri) && (ri <=? 56))%N
      then Return (N.to_nat ((ri - 49) * 8 + (fi - 97)))
      else Raise (ValueError ("'" +:+ name +:+ "' is not in list"))
  | _ => Raise (ValueError ("'" +:+ name +:+ "' is not in list"))
  end.

Definition square_name (square : Square) : string :=
  let n := N.of_nat square in
  String (ascii_of_N (97 + n mod 8)) (String (ascii_of_N (49 + n / 8)) EmptyString).

(** A bitboard with the bit of every square [i] moved to square [f i]. *)
Definition remap (f : N -> N) (bb : N) : N :=
  fold_right (fun i acc => if N.testbit bb i then N.setbit acc (f i) else acc) 0%N
             (map N.of_nat (seq 0 64)).

Definition flip_horizontal (bb : N) : N := remap (fun i => N.lxor i 7) bb.

Definition flip_vertical (bb : N) : N := remap (fun i => N.lxor i 56) bb.

Definition Button_getitem (name : str.wide) : option button :=
  if decide (name = str.code_points "PLAYER") then Some PLAYER
  else if decide (name = str.code_points "COMPUTER") then Some COMPUTER
  else if decide (name = str.code_points "HINT") then Some HINT
  else None.

Definition Button_name (b : button) : string :=
  match b with
  | PLAYER => "PLAYER"
  | COMPUTER => "COMPUTER"
  | HINT => "HINT"
  end.

Definition LEDPallete_getitem (name : str.wide) : option pallete :=
  if decide (name = str.code_points "IDLE") then Some IDLE
  else if decide (name = str.code_points "RAINBOW") then Some RAINBOW
  else None.

Definition LEDPallete_name (p : pallete) : string :=
  match p with
  | IDLE => "IDLE"
  | RAINBOW => "RAINBOW"
  end.

Definition game_state (w : world) : State :=
  if updates w <=? 1 then STARTING
  else if updates w mod 4 <? 2 then COMPUTER_TURN
  else HUMAN_TURN.

Definition arduino_update (w : world) : Result unit * world :=
  (Return tt, mkWorld (S (updates w)) (magnet w) (camera_ok w) (detector_ok w)).

Definition set_electromagnet (enabled block : bool) (w : world) : Result unit * world :=
  (Return tt, mkWorld (updates w) enabled (camera_ok w) (detector_ok w)).

(** A frame is a number; the frame the detector annotates and posts is the
    frame plus 1000. *)
Definition get_image (retry : nat) (w : world) : Result nat * world :=
  if camera_ok w then (Return 7, w)
  else (Raise (Error "IOError" "camera not found"), w).

Definition detect_piece_positions (img : nat) (w : world)
  : Result (list nat) * list (nat * string) * world :=
  if detector_ok w then (Return [4; 60], [(img + 1000, "Detected Pieces")], w)
  else (Raise (Error "RuntimeError" "board not found"), [], w).

(** A board is its list of bitboards; a position is a square. *)
Definition generate_board (positions : list nat) (w : world) : Result (list N) * world :=
  (Return (map (fun sq => N.setbit 0 (N.of_nat sq)) positions), w).

Definition collab : Collab :=
  Build_Collab world button pallete nat (list nat) N (list N)
    parse_square square_name flip_horizontal flip_vertical
    (fun b f => map f b)
    Button_getitem Button_name LEDPallete_getitem LEDPallete_name
    game_state (fun _ => "(0, 0)") magnet
    arduino_update
    (fun _ _ w => (Return tt, w))
    set_electromagnet
    (fun _ _ w => (Return tt, w))
    (fun _ w => (Return tt, w))
    (fun _ w => (Return tt, w))
    get_image detect_piece_positions generate_board.

(** An environment with nothing asked yet. *)
Definition env0 (w : world) : Env collab := mkEnv (C:=collab) w [].

End demo.

(** A store of the worker into the snapshot. *)
Definition is_store (l : Label) : bool :=
  match l with
  | LStoreColor _ | LStoreText _ => true
  | _ => false
  end.

(** The snapshot as the fields hold it: color, then text. *)
Definition snapshot_of (t : Thread) : string * string :=
  (status_line_color t, status_line t).

(** What a read gave comes from [snapshot]. *)
Definition reads_from (snapshot : string * string) (l : Label) : Prop :=
  match l with
  | LLine text => text = snapshot.2
  | LColor color => color = snapshot.1
  | _ => True
  end.

(** What a read gave is the color, or the text, of one of [snapshots]. *)
Definition reads_among (snapshots : list (string * string)) (l : Label) : Prop :=
  match l with
  | LLine text => text ∈ snapshots.*2
  | LColor color => color ∈ snapshots.*1
  | _ => True
  end.

(** The fields hold what [snapshots] account for: one of them, or, between
    the worker's two stores, the color of one whose text is still to be
    stored, beside an earlier text. *)
Definition coherent {C : Collab} (snapshots : list (string * string)) (s : Sys C) : Prop :=
  match pc s with
  | AtStoreColor p => p ∈ snapshots /\ snapshot_of (thread s) ∈ snapshots
  | AtStoreText text =>
      (status_line_color (thread s), text) ∈ snapshots
      /\ status_line (thread s) ∈ snapshots.*2
  | _ => snapshot_of (thread s) ∈ snapshots
  end.

(** The worker's steps from a point of [run] to the test of the drain loop. *)
Definition steps_to_drain (p : Pc) : nat :=
  match p with
  | AtInit => 5
  | AtStale => 4
  | AtStoreColor _ => 3
  | AtStoreText _ => 2
  | AtUpdate => 1
  | AtDrain | Dead _ => 0
  end.

Definition alive (p : Pc) : Prop :=
  match p with
  | Dead _ => False
  | _ => True
  end.

(** ** Words used in the statements *)

(** Every character of [s] satisfies [p]. *)
Fixpoint all_chars (p : ascii -> bool) (s : string) : bool :=
  match s with
  | EmptyString => true
  | String c s' => p c && all_chars p s'
  end.

(** White space only. *)
Definition blank (s : string) : bool := all_chars str.isspace s.

(** A token: not empty, and no white space in it. *)
Definition token (s : string) : bool :=
  match s with
  | EmptyString => false
  | _ => all_chars (fun c => negb (str.isspace c)) s
  end.

(** [sep] does not occur in [s]. *)
Definition free_of (sep : ascii) (s : string) : bool :=
  all_chars (fun c => negb (bool_decide (c = sep))) s.

(** The heads [execute_command] knows. *)
Definition known_heads : list string :=
  ["move"; "magnet"; "bled"; "leds"; "autoplay"; "camshow"; "exit"].

(** The tab character. *)
Definition TAB : string := String (ascii_of_N 9) EmptyString.

(** The occurrences of [sep] in [s]. *)
Fixpoint count_char (sep : ascii) (s : string) : nat :=
  match s with
  | EmptyString => 0
  | String c s' => (if decide (c = sep) then 1 else 0) + count_char sep s'
  end.

(** The arguments a branch of [execute_command] reads. *)
Definition arity (cmd : string) : nat :=
  if decide (cmd = "bled") then 2
  else if decide (cmd = "camshow") then 0
  else if decide (cmd = "exit") then 0
  else 1.

(** A call of one of the two getters. *)
Definition is_getter (a : Action) : bool :=
  match a with
  | GetStatusLine | GetStatusLineColor => true
  | _ => false
  end.

(** A schedule without the dashboard's reads, a run without what they gave. *)
Definition without_reads (sched : list Action) : list Action :=
  List.filter (fun a => negb (is_getter a)) sched.

Definition without_read_labels (ls : list Label) : list Label :=
  List.filter (fun l => negb (is_read l)) ls.

(** The text of the status line for the controller in world [w]. *)
Definition statusline_text (C : Collab) (w : World C) : string :=
  if decide (game_state C w = STARTING) then "Starting..."
  else "State: " +:+ State_name (game_state C w)
       +:+ " / Gantry: " +:+ gantry_pos C w
       +:+ " / Magnet: " +:+ ON_OFF (electromagnet_enabled C w).

(** The snapshot for the controller in world [w]: color, then text. *)
Definition statusline_of (C : Collab) (w : World C) : string * string :=
  (dict_get GAME_STATE_STATUSLINE_COLORS (game_state C w) "ansiblack bg:ansiwhite",
   statusline_text C w).

(** * Properties *)

(** ** Strings *)

Lemma isspace_lower_char (c : ascii) : str.isspace (str.lower_char c) = str.isspace c.
Proof. destruct c as [[] [] [] [] [] [] [] []]; reflexivity. Qed.

Lemma lower_empty (s : string) : str.lower s = EmptyString -> s = EmptyString.
Proof. destruct s; [reflexivity | discriminate]. Qed.

Lemma lower_app (s1 s2 : string) : str.lower (s1 +:+ s2) = str.lower s1 +:+ str.lower s2.
Proof. induction s1 as [|c s1 IH]; simpl; [reflexivity | by rewrite IH]. Qed.

Lemma lower_lstrip (s : string) : str.lower (str.lstrip s) = str.lstrip (str.lower s).
Proof.
  induction s as [|c s IH]; simpl; [reflexivity |].
  rewrite isspace_lower_char. destruct (str.isspace c); [exact IH | reflexivity].
Qed.

Lemma lower_rstrip (s : string) : str.lower (str.rstrip s) = str.rstrip (str.lower s).
Proof.
  induction s as [|c s IH]; simpl; [reflexivity |].
  rewrite <- IH, isspace_lower_char.
  destruct (str.rstrip s) as [|d r]; simpl; [| reflexivity].
  destruct (str.isspace c); reflexivity.
Qed.

Lemma lower_strip (s : string) : str.lower (str.strip s) = str.strip (str.lower s).
Proof. unfold str.strip. by rewrite lower_rstrip, lower_lstrip. Qed.

Lemma token_lower (s : string) : token s = true -> token (str.lower s) = true.
Proof.
  destruct s as [|c s]; [discriminate |]. simpl.
  rewrite isspace_lower_char. intros [-> H]%andb_true_iff. simpl.
  clear c. induction s as [|c s IH]; simpl in *; [reflexivity |].
  rewrite isspace_lower_char.
  apply andb_true_iff in H as [-> H]. simpl. by apply IH.
Qed.

Lemma lstrip_token_app (s rest : string) :
  token s = true -> str.lstrip (s +:+ rest) = s +:+ rest.
Proof.
  destruct s as [|c s]; [discriminate |]. simpl.
  intros [H _]%andb_true_iff. apply negb_true_iff in H. by rewrite H.
Qed.

Lemma rstrip_token (s : string) : token s = true -> str.rstrip s = s.
Proof.
  destruct s as [|c s]; [discriminate |]. unfold token.
  revert c. induction s as [|d s IH]; intros c; simpl.
  - intros [H _]%andb_true_iff. apply negb_true_iff in H. by rewrite H.
  - intros [_ H]%andb_true_iff. specialize (IH d H). simpl in IH. by rewrite IH.
Qed.

Lemma append_String (c : ascii) (s1 s2 : string) :
  String c s1 +:+ s2 = String c (s1 +:+ s2).
Proof. reflexivity. Qed.

Lemma append_assoc_string (s1 s2 s3 : string) :
  (s1 +:+ s2) +:+ s3 = s1 +:+ s2 +:+ s3.
Proof.
  induction s1 as [|c s1 IH]; [reflexivity |].
  rewrite !append_String. by rewrite IH.
Qed.

Lemma rstrip_app_token (s1 s2 : string) :
  token s2 = true -> str.rstrip (s1 +:+ s2) = s1 +:+ s2.
Proof.
  intros H. induction s1 as [|c s1 IH].
  - by apply rstrip_token.
  - rewrite append_String. simpl. rewrite IH.
    destruct (s1 +:+ s2) eqn:E; [| reflexivity].
    destruct s1 as [|d s1]; [| rewrite append_String in E; discriminate].
    change s2 with (EmptyString +:+ s2) in H. rewrite E in H. discriminate.
Qed.

Lemma strip_tokens (h mid a : string) :
  token h = true -> token a = true -> str.strip (h +:+ mid +:+ a) = h +:+ mid +:+ a.
Proof.
  intros Hh Ha. unfold str.strip. rewrite lstrip_token_app by done.
  pose proof (rstrip_app_token (h +:+ mid) a Ha) as H.
  by rewrite append_assoc_string in H.
Qed.

Lemma lstrip_blank_app (ws s : string) :
  blank ws = true -> str.lstrip (ws +:+ s) = str.lstrip s.
Proof.
  induction ws as [|c ws IH]; [done |].
  rewrite append_String. simpl.
  intros [-> H]%andb_true_iff. by apply IH.
Qed.

Lemma rstrip_blank (ws : string) : blank ws = true -> str.rstrip ws = EmptyString.
Proof.
  induction ws as [|c ws IH]; simpl; [done |].
  intros [-> H]%andb_true_iff. by rewrite (IH H).
Qed.

Lemma rstrip_app_blank (s ws : string) :
  blank ws = true -> str.rstrip (s +:+ ws) = str.rstrip s.
Proof.
  intros H. induction s as [|c s IH].
  - by apply rstrip_blank.
  - rewrite append_String. simpl. by rewrite IH.
Qed.

Lemma strip_app_blank (s ws : string) :
  blank ws = true -> str.strip (s +:+ ws) = str.strip s.
Proof.
  intros H. unfold str.strip. induction s as [|c s IH].
  - simpl. rewrite rstrip_blank; [done |].
    clear -H. induction ws as [|c ws IH]; simpl in *; [done |].
    apply andb_true_iff in H as [Hc H]. rewrite Hc. by apply IH.
  - rewrite append_String. simpl. destruct (str.isspace c); [exact IH |].
    by rewrite <- append_String, rstrip_app_blank.
Qed.

Lemma strip_blank_around (ws1 s ws2 : string) :
  blank ws1 = true -> blank ws2 = true ->
  str.strip (ws1 +:+ s +:+ ws2) = str.strip s.
Proof.
  intros H1 H2. unfold str.strip. rewrite lstrip_blank_app by done.
  by apply strip_app_blank.
Qed.

Lemma all_chars_app (p : ascii -> bool) (s1 s2 : string) :
  all_chars p (s1 +:+ s2) = all_chars p s1 && all_chars p s2.
Proof.
  induction s1 as [|c s1 IH]; [reflexivity |].
  rewrite append_String. simpl. by rewrite IH, andb_assoc.
Qed.

Lemma all_chars_impl (p q : ascii -> bool) (s : string) :
  (forall c, p c = true -> q c = true) -> all_chars p s = true -> all_chars q s = true.
Proof.
  intros Hpq. induction s as [|c s IH]; simpl; [done |].
  intros [Hc H]%andb_true_iff. by rewrite (Hpq c Hc), (IH H).
Qed.

Lemma token_free_of_space (s : string) : token s = true -> free_of " " s = true.
Proof.
  destruct s as [|c s]; [discriminate |]. unfold token, free_of.
  apply all_chars_impl. intros d Hd. apply negb_true_iff, bool_decide_eq_false.
  intros ->. discriminate.
Qed.

Lemma split_free (sep : ascii) (s : string) : free_of sep s = true -> str.split sep s = [s].
Proof.
  unfold free_of. induction s as [|c s IH]; simpl; [done |].
  intros [Hc H]%andb_true_iff. apply negb_true_iff, bool_decide_eq_false in Hc.
  rewrite decide_False by done. by rewrite (IH H).
Qed.

Lemma split_app (sep : ascii) (s rest : string) :
  free_of sep s = true ->
  str.split sep (s +:+ String sep rest) = s :: str.split sep rest.
Proof.
  unfold free_of. induction s as [|c s IH].
  - intros _. change (EmptyString +:+ String sep rest) with (String sep rest).
    simpl. by rewrite decide_True.
  - rewrite append_String. simpl.
    intros [Hc H]%andb_true_iff. apply negb_true_iff, bool_decide_eq_false in Hc.
    rewrite decide_False by done. by rewrite (IH H).
Qed.

Lemma split_head (sep : ascii) (s : string) :
  exists tok rest, str.split sep s = tok :: rest.
Proof.
  induction s as [|c s (tok & rest & IH)]; simpl; [by eauto |].
  destruct (decide (c = sep)); [by eauto |]. rewrite IH. by eauto.
Qed.

Lemma parse_command_lower (command : string) :
  parse_command command = str.split " " (str.strip (str.lower command)).
Proof. unfold parse_command. by rewrite lower_strip. Qed.

Lemma parse_tokens (h mid a : string) :
  token h = true -> token a = true ->
  parse_command (h +:+ mid +:+ a)
  = str.split " " (str.lower h +:+ str.lower mid +:+ str.lower a).
Proof.
  intros Hh Ha. unfold parse_command.
  by rewrite strip_tokens, !lower_app by done.
Qed.

(** ** The interpreter *)

(** Unfolds the monad down to functions on the environment. *)
Ltac run_monad :=
  unfold mbind, M_bind, mret, M_ret, bind, ret, raise, lift, print, show_image,
    emit, call, attr, subscript, getitem, try_except, detect in *;
  simpl in *.


(** Settles the chain of tests on a head that is a literal. *)
Ltac pick_branch :=
  unfold dispatch;
  repeat (rewrite decide_False by discriminate);
  try (rewrite decide_True by reflexivity).

Lemma execute_command_dispatch (C : Collab) (command cmd : string) (args : list string) :
  parse_command command = cmd :: args ->
  execute_command C command = dispatch C cmd args command.
Proof. intros H. unfold execute_command. by rewrite H. Qed.

Lemma execute_command_total_parse (C : Collab) (command : string) :
  exists cmd args,
    parse_command command = cmd :: args
    /\ execute_command C command = dispatch C cmd args command.
Proof.
  destruct (split_head " " (str.lower (str.strip command))) as (cmd & args & H).
  exists cmd, args. split; [exact H |]. by apply execute_command_dispatch.
Qed.

Lemma dispatch_known_head (C : Collab) (cmd : string) (args : list string) (c1 c2 : string) :
  cmd ∈ known_heads -> dispatch C cmd args c1 = dispatch C cmd args c2.
Proof.
  intros Hin. unfold dispatch. repeat case_decide; try reflexivity.
  exfalso. unfold known_heads in Hin. rewrite !elem_of_cons in Hin.
  rewrite elem_of_nil in Hin. tauto.
Qed.

Lemma dispatch_unknown_head (C : Collab) (cmd : string) (args : list string)
    (command : string) (e : Env C) :
  cmd ∉ known_heads ->
  dispatch C cmd args command e
  = (Return tt,
     mkEnv (world e) (trace e ++ [EvPrint [PStr ("Unknown Command: '" +:+ command +:+ "'")]])).
Proof.
  intros Hout. unfold known_heads in Hout. rewrite !not_elem_of_cons in Hout.
  destruct Hout as (? & ? & ? & ? & ? & ? & ? & _).
  unfold dispatch. by rewrite !decide_False by done.
Qed.

(** C10. For [magnet] and [autoplay], a first argument other than ["on"]
    (the command line being stripped and lowered first) turns the setting
    off: the setter is called with [False], the only thing printed is
    ["Turning magnet OFF"] (nothing for [autoplay]), and no error is
    reported for the argument; the outcome is the setter's. *)
Theorem magnet_autoplay_not_on_is_off (C : Collab) (command a : string)
    (rest : list string) (e : Env C) :
  a <> "on" ->
  (parse_command command = "magnet" :: a :: rest ->
   execute_command C command e
   = let (r, w) := set_electromagnet C false false (world e) in
     (r, mkEnv w (trace e ++ [EvPrint [PStr "Turning magnet"; PStr "OFF"];
                              EvSetElectromagnet false false])))
  /\ (parse_command command = "autoplay" :: a :: rest ->
      execute_command C command e
      = let (r, w) := set_autoplay C false (world e) in
        (r, mkEnv w (trace e ++ [EvSetAutoplay false]))).
Proof.
  intros Ha. split; intros Hp; rewrite (execute_command_dispatch C _ _ _ Hp);
    pick_branch; run_monad; rewrite bool_decide_eq_false_2 by done; simpl.
  - destruct (set_electromagnet C false false (world e)) as [r w].
    by rewrite <- app_assoc.
  - reflexivity.
Qed.

Lemma magnet_autoplay_not_on_is_off_witness :
  "banana" <> "on"
  /\ execute_command demo.collab "Magnet Banana" (demo.env0 demo.w0)
     = (Return tt,
        mkEnv (C:=demo.collab) (demo.mkWorld 0 false true true)
              [EvPrint [PStr "Turning magnet"; PStr "OFF"];
               EvSetElectromagnet false false]).
Proof.
  split; [discriminate |].
  apply (proj1 (magnet_autoplay_not_on_is_off demo.collab "Magnet Banana" "banana" []
                  (demo.env0 demo.w0) ltac:(discriminate))).
  reflexivity.
Defined.



(** ** The worker *)

Section Runs.

Variable C : Collab.

Lemma run_cons (a : Action) (sched : list Action) (s : Sys C) :
  run C (a :: sched) s
  = ((run C sched (step C a s).1).1, (step C a s).2 :: (run C sched (step C a s).1).2).
Proof.
  simpl. destruct (step C a s) as [s1 l]. simpl.
  by destruct (run C sched s1) as [s2 ls].
Qed.

Lemma run_app (sched1 sched2 : list Action) (s : Sys C) :
  run C (sched1 ++ sched2) s
  = ((run C sched2 (run C sched1 s).1).1,
     (run C sched1 s).2 ++ (run C sched2 (run C sched1 s).1).2).
Proof.
  revert s. induction sched1 as [|a sched1 IH]; intros s.
  - simpl. by destruct (run C sched2 s).
  - rewrite <- app_comm_cons, !run_cons, IH. reflexivity.
Qed.

Lemma step_dead (a : Action) (s : Sys C) (x : PyExn) :
  pc s = Dead x ->
  pc (step C a s).1 = Dead x /\ handled [(step C a s).2] = [].
Proof.
  intros H. destruct a; simpl; unfold worker_step; rewrite ?H; simpl; by rewrite ?H.
Qed.

Lemma run_dead (sched : list Action) (s : Sys C) (x : PyExn) :
  pc s = Dead x ->
  pc (run C sched s).1 = Dead x /\ handled (run C sched s).2 = [].
Proof.
  revert s. induction sched as [|a sched IH]; intros s H; [done |].
  rewrite run_cons. simpl.
  destruct (step_dead a s x H) as [H1 H2].
  destruct (IH _ H1) as [H3 H4]. split; [exact H3 |].
  change (handled ([(step C a s).2] ++ (run C sched (step C a s).1).2) = []).
  unfold handled in *. by rewrite omap_app, H2, H4.
Qed.

Lemma worker_step_raise (t : Thread) (command : string) (e e' : Env C) (x : PyExn) :
  commands t = [command] ++ List.tl (commands t) ->
  execute_command C command e = (Raise x, e') ->
  worker_step C (mkSys t AtDrain e)
  = (mkSys (mkThread (status_line t) (status_line_color t) (status_line_stale t)
                     (List.tl (commands t)))
           (Dead x) e',
     LHandled command).
Proof.
  intros Ht He. unfold worker_step. simpl.
  destruct (commands t) as [|c rest]; [discriminate |].
  simpl in Ht. injection Ht as <-. by rewrite He.
Qed.

End Runs.

(** ** What [execute_command] catches, and what it lets through *)





(** ** Parsing *)

Lemma free_of_space_tab (h a : string) :
  token h = true -> token a = true -> free_of " " (h +:+ TAB +:+ a) = true.
Proof.
  intros Hh Ha. unfold free_of. rewrite !all_chars_app.
  fold (free_of " " h). fold (free_of " " a).
  by rewrite !token_free_of_space.
Qed.

(** C5, as the code has it. The command line is stripped, lowered and split
    at every single space character into a head and its arguments, so the
    case of the input does not matter and white space around it is dropped.
    Two tokens with one space between them are the head and one argument; with
    two spaces between them an empty argument stands between the two; a tab
    between them separates nothing, and both stay in one head. The branch
    taken depends on the head alone: the raw text is used only by the
    "unknown command" message. *)
Theorem parse_command_splits_at_single_spaces (h a : string) :
  token h = true -> token a = true ->
  parse_command (h +:+ " " +:+ a) = [str.lower h; str.lower a]
  /\ parse_command (h +:+ "  " +:+ a) = [str.lower h; EmptyString; str.lower a]
  /\ parse_command (h +:+ TAB +:+ a) = [str.lower h +:+ TAB +:+ str.lower a]
  /\ (forall ws1 ws2 command, blank ws1 = true -> blank ws2 = true ->
      parse_command (ws1 +:+ command +:+ ws2) = parse_command command)
  /\ (forall c1 c2, str.lower c1 = str.lower c2 -> parse_command c1 = parse_command c2)
  /\ (forall C command, exists cmd args,
        parse_command command = cmd :: args
        /\ execute_command C command = dispatch C cmd args command)
  /\ (forall C cmd args c1 c2, cmd ∈ known_heads ->
      dispatch C cmd args c1 = dispatch C cmd args c2).
Proof.
  intros Hh Ha.
  pose proof (token_free_of_space _ (token_lower _ Hh)) as Fh.
  pose proof (token_free_of_space _ (token_lower _ Ha)) as Fa.
  repeat split.
  - rewrite parse_tokens by done.
    change (str.lower " " +:+ str.lower a) with (String " " (str.lower a)).
    by rewrite split_app, split_free.
  - rewrite parse_tokens by done.
    change (str.lower "  " +:+ str.lower a) with (String " " (String " " (str.lower a))).
    rewrite split_app by done. simpl. by rewrite split_free.
  - rewrite parse_tokens by done.
    change (str.lower TAB) with TAB.
    by rewrite split_free by (by apply free_of_space_tab; apply token_lower).
  - intros ws1 ws2 command H1 H2. unfold parse_command.
    by rewrite strip_blank_around.
  - intros c1 c2 H. by rewrite !parse_command_lower, H.
  - intros C command. apply execute_command_total_parse.
  - intros C cmd args c1 c2. apply dispatch_known_head.
Qed.

Lemma parse_command_splits_at_single_spaces_witness :
  (token "MOVE" = true /\ token "E4" = true)
  /\ parse_command "MOVE E4" = ["move"; "e4"]
  /\ parse_command "MOVE  E4" = ["move"; ""; "e4"].
Proof.
  split; [by split |].
  pose proof (parse_command_splits_at_single_spaces "MOVE" "E4" eq_refl eq_refl)
    as (H1 & H2 & _).
  split; [exact H1 | exact H2].
Defined.

(** C5 fails on the code: with two spaces, or a tab, between the tokens the
    head and the arguments are not those of the single-space command, and
    [move] no longer gets its square. *)
Lemma parse_command_whitespace_counterexample :
  parse_command "move e4" = ["move"; "e4"]
  /\ parse_command "move  e4" = ["move"; ""; "e4"]
  /\ parse_command ("move" +:+ TAB +:+ "e4") = ["move" +:+ TAB +:+ "e4"]
  /\ execute_command demo.collab "move e4" (demo.env0 demo.w0)
     = (Return tt,
        mkEnv (C:=demo.collab) demo.w0
              [EvPrint [PStr "Moving to square:"; PStr "e4"]; EvMoveToSquare 28 false])
  /\ execute_command demo.collab "move  e4" (demo.env0 demo.w0)
     = (Raise (ValueError "'' is not in list"), demo.env0 demo.w0).
Proof. repeat split. Qed.

(** ** The status line *)

Lemma colors_lookup_other (name : string) :
  GAME_STATE_STATUSLINE_COLORS !! OtherState name = None.
Proof.
  unfold GAME_STATE_STATUSLINE_COLORS.
  rewrite !lookup_insert_ne by discriminate.
  by rewrite lookup_singleton_ne by discriminate.
Qed.

(** C7. The color of a state is found for every state: each of the five
    states of the table has the color the table gives it, every other state
    has the default ["ansiblack bg:ansiwhite"], and [make_statusline] returns
    the color so found for the controller's state whenever
    [arduino.update()] returns. *)
Theorem statusline_color_total (C : Collab) (e : Env C) :
  let color state := dict_get GAME_STATE_STATUSLINE_COLORS state "ansiblack bg:ansiwhite" in
  color STARTING = "ansiblack bg:ansigray"
  /\ color READY = "bg:ansigreen"
  /\ color HUMAN_TURN = "bg:#FF69B4"
  /\ color COMPUTER_TURN = "ansiblack bg:#66AAFF"
  /\ color ERROR = "bg:ansired"
  /\ (forall name, color (OtherState name) = "ansiblack bg:ansiwhite")
  /\ (forall state, exists c,
        color state = c
        /\ (GAME_STATE_STATUSLINE_COLORS !! state = Some c
            \/ GAME_STATE_STATUSLINE_COLORS !! state = None /\ c = "ansiblack bg:ansiwhite"))
  /\ match arduino_update C (world e) with
     | (Return _, w) =>
         exists text,
           make_statusline C e
           = (Return (color (game_state C w), text), mkEnv w (trace e ++ [EvArduinoUpdate]))
     | (Raise x, w) =>
         make_statusline C e = (Raise x, mkEnv w (trace e ++ [EvArduinoUpdate]))
     end.
Proof.
  intros color. subst color. unfold dict_get. cbv beta.
  do 5 (split; [reflexivity |]).
  split; [intros name; by rewrite colors_lookup_other |].
  split.
  { intros state. destruct (GAME_STATE_STATUSLINE_COLORS !! state) as [c|]; simpl; eauto. }
  unfold make_statusline. run_monad.
  destruct (arduino_update C (world e)) as [[[]|x] w]; simpl; [| reflexivity].
  destruct (decide (game_state C w = STARTING)); simpl; eauto.
Qed.

(** ** The shared fields *)

(** C8. [get_status_line] leaves the staleness flag true, whatever it was,
    returns the text and changes nothing else; [get_status_line_color]
    returns the color and changes nothing at all, the flag included, also as
    a step of the whole system. *)
Theorem reads_and_staleness (C : Collab) (t : Thread) (s : Sys C) :
  status_line_stale (get_status_line t).1 = true
  /\ (get_status_line t).2 = status_line t
  /\ snapshot_of (get_status_line t).1 = snapshot_of t
  /\ commands (get_status_line t).1 = commands t
  /\ get_status_line_color t = (t, status_line_color t)
  /\ (step C GetStatusLineColor s).1 = s
  /\ status_line_stale (thread (step C GetStatusLine s).1) = true.
Proof. repeat split. by destruct s. Qed.

Section Fields.

Variable C : Collab.

Lemma worker_step_stale (s : Sys C) :
  status_line_stale (thread (worker_step C s).1) = status_line_stale (thread s).
Proof.
  unfold worker_step. destruct (pc s); simpl; try reflexivity.
  - by destruct (call C EvArduinoUpdate (arduino_update C) (env s)).
  - destruct (status_line_stale (thread s)) eqn:E; [| done].
    destruct (make_statusline C (env s)) as [[] ?]; simpl; by rewrite ?E.
  - by destruct (call C EvArduinoUpdate (arduino_update C) (env s)).
  - destruct (commands (thread s)) as [|command rest]; [reflexivity |].
    by destruct (execute_command C command (env s)).
Qed.

Lemma step_stale (a : Action) (s : Sys C) :
  status_line_stale (thread s) = true ->
  status_line_stale (thread (step C a s).1) = true.
Proof.
  intros H. destruct a; simpl; try done. by rewrite worker_step_stale.
Qed.

Lemma run_stale (sched : list Action) (s : Sys C) :
  status_line_stale (thread s) = true ->
  status_line_stale (thread (run C sched s).1) = true.
Proof.
  revert s. induction sched as [|a sched IH]; intros s H; [done |].
  rewrite run_cons. simpl. by apply IH, step_stale.
Qed.

Lemma step_no_store (a : Action) (s : Sys C) :
  is_store (step C a s).2 = false ->
  snapshot_of (thread (step C a s).1) = snapshot_of (thread s)
  /\ reads_from (snapshot_of (thread s)) (step C a s).2.
Proof.
  destruct a; simpl; try done.
  unfold worker_step. destruct (pc s); simpl; try done.
  - by destruct (call C EvArduinoUpdate (arduino_update C) (env s)).
  - destruct (status_line_stale (thread s)); [| done].
    by destruct (make_statusline C (env s)) as [[] ?].
  - by destruct (call C EvArduinoUpdate (arduino_update C) (env s)).
  - destruct (commands (thread s)) as [|command rest]; [done |].
    by destruct (execute_command C command (env s)).
Qed.

Lemma run_no_store (sched : list Action) (s : Sys C) :
  forallb (fun l => negb (is_store l)) (run C sched s).2 = true ->
  snapshot_of (thread (run C sched s).1) = snapshot_of (thread s)
  /\ Forall (reads_from (snapshot_of (thread s))) (run C sched s).2.
Proof.
  revert s. induction sched as [|a sched IH]; intros s; [by split |].
  rewrite run_cons. simpl. intros [Ha H]%andb_true_iff.
  apply negb_true_iff in Ha. destruct (step_no_store a s Ha) as [E R].
  destruct (IH _ H) as [E' R']. rewrite E in E', R'. by split; [| constructor].
Qed.

Lemma publish_stores (s : Sys C) (snapshot : string * string) :
  pc s = AtStoreColor snapshot ->
  snapshot_of (thread (run C [Worker; Worker] s).1) = snapshot
  /\ pc (run C [Worker; Worker] s).1 = AtUpdate
  /\ (run C [Worker; Worker] s).2 = [LStoreColor snapshot.1; LStoreText snapshot.2].
Proof.
  intros H. simpl. unfold worker_step. rewrite H. simpl. by destruct snapshot.
Qed.

End Fields.

(** C2, on the code: the worker never writes the staleness flag. No step of
    [run] changes it, the store that completes a publish included, and on
    every run from the thread's start it is true: the worker recomputes the
    status line in every iteration. *)
Theorem status_line_stale_never_cleared (C : Collab) (w : World C) (sched : list Action) :
  (forall s : Sys C,
     status_line_stale (thread (worker_step C s).1) = status_line_stale (thread s))
  /\ status_line_stale (thread (run C sched (Sys_init C w)).1) = true
  /\ status_line_stale (thread (run demo.collab (repeat Worker 4)
                                   (Sys_init demo.collab demo.w0)).1) = true
  /\ (run demo.collab (repeat Worker 4) (Sys_init demo.collab demo.w0)).2
     = [LInit;
        LComputed ("bg:#FF69B4", "State: HUMAN_TURN / Gantry: (0, 0) / Magnet: OFF");
        LStoreColor "bg:#FF69B4";
        LStoreText "State: HUMAN_TURN / Gantry: (0, 0) / Magnet: OFF"].
Proof.
  split; [apply worker_step_stale |].
  split; [by apply run_stale |]. by split.
Qed.

(** C4. Once the worker has stored the color and the text of a snapshot,
    every read returns that snapshot's text and every color read its color,
    through any steps of the two threads, until the worker stores again. *)
Theorem read_returns_published (C : Collab) (s : Sys C) (snapshot : string * string)
    (sched : list Action) :
  pc s = AtStoreColor snapshot ->
  let published := (run C [Worker; Worker] s).1 in
  forallb (fun l => negb (is_store l)) (run C sched published).2 = true ->
  snapshot_of (thread published) = snapshot
  /\ Forall (reads_from snapshot) (run C sched published).2
  /\ snapshot_of (thread (run C sched published).1) = snapshot.
Proof.
  intros Hpc published Hno.
  destruct (publish_stores C s snapshot Hpc) as (E & _ & _). fold published in E.
  destruct (run_no_store C sched published Hno) as [E' R].
  rewrite E in E', R. by repeat split.
Qed.

Lemma read_returns_published_witness :
  let s := (run demo.collab [Worker; Worker] (Sys_init demo.collab demo.w0)).1 in
  let snapshot := ("bg:#FF69B4", "State: HUMAN_TURN / Gantry: (0, 0) / Magnet: OFF") in
  pc s = AtStoreColor snapshot
  /\ (run demo.collab
          [GetStatusLine; Worker; GetStatusLineColor; Enqueue "magnet on"; Worker;
           Worker; GetStatusLine]
          (run demo.collab [Worker; Worker] s).1).2
     = [LLine snapshot.2; LUpdated; LColor snapshot.1; LEnqueued "magnet on";
        LHandled "magnet on"; LEmpty; LLine snapshot.2]
  /\ Forall (reads_from snapshot)
       (run demo.collab
          [GetStatusLine; Worker; GetStatusLineColor; Enqueue "magnet on"; Worker;
           Worker; GetStatusLine]
          (run demo.collab [Worker; Worker] s).1).2.
Proof.
  split; [reflexivity |]. split; [reflexivity |].
  apply (read_returns_published demo.collab
           (run demo.collab [Worker; Worker] (Sys_init demo.collab demo.w0)).1
           ("bg:#FF69B4", "State: HUMAN_TURN / Gantry: (0, 0) / Magnet: OFF")
           [GetStatusLine; Worker; GetStatusLineColor; Enqueue "magnet on"; Worker;
            Worker; GetStatusLine]
           eq_refl eq_refl).
Defined.

(** ** The command queue *)

Section Queue.

Variable C : Collab.

Lemma handled_cons (l : Label) (ls : list Label) :
  handled (l :: ls) = handled [l] ++ handled ls.
Proof. unfold handled. by rewrite <- omap_app. Qed.

Lemma step_queue (a : Action) (s : Sys C) :
  commands (thread s) ++ enqueued [a]
  = handled [(step C a s).2] ++ commands (thread (step C a s).1).
Proof.
  destruct a; simpl; try by rewrite app_nil_r.
  2: reflexivity.
  unfold worker_step. destruct (pc s); simpl; try by rewrite app_nil_r.
  - destruct (call C EvArduinoUpdate (arduino_update C) (env s)). by rewrite app_nil_r.
  - destruct (status_line_stale (thread s)); [| by rewrite app_nil_r].
    destruct (make_statusline C (env s)) as [[] ?]; by rewrite app_nil_r.
  - destruct (call C EvArduinoUpdate (arduino_update C) (env s)). by rewrite app_nil_r.
  - destruct (commands (thread s)) as [|command rest] eqn:E; simpl; [by rewrite E |].
    destruct (execute_command C command (env s)). by rewrite app_nil_r.
Qed.

Lemma run_queue (sched : list Action) (s : Sys C) :
  commands (thread s) ++ enqueued sched
  = handled (run C sched s).2 ++ commands (thread (run C sched s).1).
Proof.
  revert s. induction sched as [|a sched IH]; intros s; [by rewrite app_nil_r |].
  rewrite run_cons. cbn [fst snd].
  rewrite handled_cons, <- app_assoc, <- IH, app_assoc, <- step_queue, <- app_assoc.
  f_equal. unfold enqueued. by rewrite <- omap_app.
Qed.

Lemma run_dead_not_alive (sched : list Action) (s : Sys C) (x : PyExn) :
  pc s = Dead x -> ~ alive (pc (run C sched s).1).
Proof. intros H. destruct (run_dead C sched s x H) as [E _]. rewrite E. exact id. Qed.

Lemma run_alive (sched : list Action) (s : Sys C) :
  alive (pc (run C sched s).1) -> alive (pc s).
Proof.
  intros H. destruct (pc s) eqn:E; try exact I.
  by apply (run_dead_not_alive sched s e E).
Qed.

(** A step of a living worker with a command waiting: it hands over the head
    of the queue, or it comes closer to the drain loop. *)
Lemma worker_step_progress (s : Sys C) (c : string) (q : list string) :
  commands (thread s) = c :: q ->
  alive (pc (worker_step C s).1) ->
  ((worker_step C s).2 = LHandled c
   /\ commands (thread (worker_step C s).1) = q
   /\ pc (worker_step C s).1 = AtDrain)
  \/ (handled [(worker_step C s).2] = []
      /\ commands (thread (worker_step C s).1) = c :: q
      /\ S (steps_to_drain (pc (worker_step C s).1)) <= steps_to_drain (pc s)).
Proof.
  intros Hq. unfold worker_step. destruct (pc s) eqn:Hpc; simpl.
  - destruct (call C EvArduinoUpdate (arduino_update C) (env s)) as [[[]|x] e];
      simpl; [intros _; right; by repeat split | intros []].
  - destruct (status_line_stale (thread s)); simpl.
    + destruct (make_statusline C (env s)) as [[p|x] e];
        simpl; [intros _; right; repeat split; [done | lia] | intros []].
    + intros _. right. repeat split; [done | lia].
  - intros _. right. by repeat split.
  - intros _. right. by repeat split.
  - destruct (call C EvArduinoUpdate (arduino_update C) (env s)) as [[[]|x] e];
      simpl; [intros _; right; by repeat split | intros []].
  - rewrite Hq. destruct (execute_command C c (env s)) as [[[]|x] e];
      simpl; [intros _; left; by repeat split | intros []].
  - rewrite Hpc. intros [].
Qed.

(** Enough steps of a worker that stays alive hand over the front of the
    queue, whatever is enqueued meanwhile. *)
Lemma drain_progress (sched : list Action) (s : Sys C) (front back : list string) :
  commands (thread s) = front ++ back ->
  length front + steps_to_drain (pc s) <= worker_steps sched ->
  alive (pc (run C sched s).1) ->
  exists later, handled (run C sched s).2 = front ++ later.
Proof.
  unfold worker_steps.
  revert s front back. induction sched as [|a sched IH]; intros s front back Hq Hn Hl.
  { destruct front; [by exists [] | simpl in Hn; lia]. }
  destruct front as [|c front]; [by eauto |].
  rewrite run_cons in Hl |- *. cbn [fst snd] in Hl |- *. rewrite handled_cons.
  destruct a; cbn [step List.filter is_worker length] in Hn, Hl |- *.
  - (* the worker *)
    destruct (worker_step_progress s c (front ++ back) Hq (run_alive _ _ Hl))
      as [(El & Eq & Epc) | (El & Eq & Hlt)].
    + rewrite El. destruct (IH _ front back Eq ltac:(rewrite Epc; simpl in *; lia) Hl)
        as [later E].
      exists later. by rewrite E.
    + rewrite El. apply (IH _ (c :: front) back Eq); [simpl in *; lia | done].
  - (* enqueue *)
    apply (IH _ (c :: front) (back ++ [command])); [| done | done].
    simpl. by rewrite Hq, <- app_assoc.
  - (* a read *)
    by apply (IH _ (c :: front) back).
  - (* a color read *)
    by apply (IH _ (c :: front) back).
Qed.

(** A command that always raises stays the only one ever handed over. *)
Lemma worker_step_blocked (command : string) (s : Sys C) :
  (forall e, exists x e', execute_command C command e = (Raise x, e')) ->
  hd_error (commands (thread s)) = Some command ->
  (handled [(worker_step C s).2] = []
   /\ hd_error (commands (thread (worker_step C s).1)) = Some command)
  \/ (handled [(worker_step C s).2] = [command]
      /\ exists x, pc (worker_step C s).1 = Dead x).
Proof.
  intros Hraise Hq. unfold worker_step. destruct (pc s) eqn:Hpc; simpl.
  - destruct (call C EvArduinoUpdate (arduino_update C) (env s)). by left.
  - destruct (status_line_stale (thread s)); [| by left].
    destruct (make_statusline C (env s)) as [[] ?]; by left.
  - by left.
  - by left.
  - destruct (call C EvArduinoUpdate (arduino_update C) (env s)). by left.
  - destruct (commands (thread s)) as [|c rest]; [discriminate |].
    injection Hq as ->. destruct (Hraise (env s)) as (x & e' & ->).
    right. split; [reflexivity | by exists x].
  - by left.
Qed.

Lemma queue_blocked (command : string) (sched : list Action) (s : Sys C) :
  (forall e, exists x e', execute_command C command e = (Raise x, e')) ->
  hd_error (commands (thread s)) = Some command ->
  handled (run C sched s).2 = [] \/ handled (run C sched s).2 = [command].
Proof.
  intros Hraise. revert s. induction sched as [|a sched IH]; intros s Hq; [by left |].
  rewrite run_cons. cbn [fst snd]. rewrite handled_cons.
  destruct a; cbn [step].
  - destruct (worker_step_blocked command s Hraise Hq) as [[El Eq] | [El [x Ex]]];
      rewrite El.
    + by apply IH.
    + right. by rewrite (proj2 (run_dead C sched _ x Ex)).
  - apply IH. simpl. by destruct (commands (thread s)).
  - by apply IH.
  - by apply IH.
Qed.

End Queue.

Lemma handled_app (ls1 ls2 : list Label) : handled (ls1 ++ ls2) = handled ls1 ++ handled ls2.
Proof. unfold handled. by rewrite omap_app. Qed.

Lemma enqueued_app (sched1 sched2 : list Action) :
  enqueued (sched1 ++ sched2) = enqueued sched1 ++ enqueued sched2.
Proof. unfold enqueued. by rewrite omap_app. Qed.

Lemma move_without_square_raises (C : Collab) (e : Env C) :
  execute_command C "move" e = (Raise IndexError, e).
Proof. reflexivity. Qed.

(** C3, as the code has it. The commands handed to [execute_command] are, at
    every moment and in order, the front of what was submitted, and the rest
    is still in the queue in order: none is handed over twice, out of order,
    or lost from the queue. Every command submitted is handed over once the
    worker has taken as many further steps as there are commands waiting
    (plus those that bring it back to the drain loop), provided the worker is
    still alive then: [run] catches nothing, so a command that raises, or a
    controller call that raises, ends the worker and leaves the commands
    behind it in the queue for good. *)
Theorem commands_handled_in_order (C : Collab) (s : Sys C) (sched more : list Action) :
  let s1 := (run C sched s).1 in
  let s2 := (run C (sched ++ more) s).1 in
  let ls := (run C (sched ++ more) s).2 in
  commands (thread s) ++ enqueued (sched ++ more) = handled ls ++ commands (thread s2)
  /\ (alive (pc s2) ->
      length (commands (thread s1)) + steps_to_drain (pc s1) <= worker_steps more ->
      exists later, handled ls = (commands (thread s) ++ enqueued sched) ++ later).
Proof.
  intros s1 s2 ls. split; [apply run_queue |].
  subst s2 ls. rewrite run_app. cbn [fst snd]. fold s1. intros Hl Hn.
  destruct (drain_progress C more s1 (commands (thread s1)) [] ltac:(by rewrite app_nil_r)
              Hn Hl) as [later E].
  exists later. rewrite handled_app, E, app_assoc. f_equal.
  symmetry. apply run_queue.
Qed.

Lemma commands_handled_in_order_witness :
  let s := Sys_init demo.collab demo.w0 in
  let sched := [Worker; Enqueue "magnet on"; Worker; Enqueue "leds rainbow"] in
  let more := [Worker; Worker; Worker; Enqueue "autoplay off"; Worker; Worker; Worker] in
  (alive (pc (run demo.collab (sched ++ more) s).1)
   /\ length (commands (thread (run demo.collab sched s).1))
      + steps_to_drain (pc (run demo.collab sched s).1) <= worker_steps more)
  /\ exists later,
       handled (run demo.collab (sched ++ more) s).2
       = ([] ++ ["magnet on"; "leds rainbow"]) ++ later.
Proof.
  split; [split; [exact I | vm_compute; lia] |].
  apply (proj2 (commands_handled_in_order demo.collab (Sys_init demo.collab demo.w0)
                  [Worker; Enqueue "magnet on"; Worker; Enqueue "leds rainbow"]
                  [Worker; Worker; Worker; Enqueue "autoplay off"; Worker; Worker; Worker])).
  - exact I.
  - vm_compute. lia.
Defined.

(** C3 fails on the code: [move] without a square raises, the worker ends, and
    the command submitted after it is never handed over, however long the
    run goes on. *)
Lemma commands_dropped_counterexample :
  ~ exists more,
      In "magnet on"
         (handled (run demo.collab ([Enqueue "move"; Enqueue "magnet on"] ++ more)
                       (Sys_init demo.collab demo.w0)).2).
Proof.
  intros [more H]. rewrite run_app in H. cbn [fst snd] in H. rewrite handled_app in H.
  change (handled (run demo.collab [Enqueue "move"; Enqueue "magnet on"]
                       (Sys_init demo.collab demo.w0)).2) with (@nil string) in H.
  rewrite app_nil_l in H.
  destruct (queue_blocked demo.collab "move" more
              (run demo.collab [Enqueue "move"; Enqueue "magnet on"]
                   (Sys_init demo.collab demo.w0)).1) as [E | E].
  - intros e. exists IndexError, e. apply move_without_square_raises.
  - reflexivity.
  - rewrite E in H. destruct H.
  - rewrite E in H. destruct H as [H | []]. discriminate.
Qed.

(** ** Reading while the worker publishes *)

Section Tearing.

Variable C : Collab.

Lemma computed_app (ls1 ls2 : list Label) :
  computed (ls1 ++ ls2) = computed ls1 ++ computed ls2.
Proof. unfold computed. by rewrite omap_app. Qed.

Lemma computed_cons (l : Label) (ls : list Label) :
  computed (l :: ls) = computed [l] ++ computed ls.
Proof. unfold computed. by rewrite <- omap_app. Qed.

Lemma coherent_mono (snapshots more : list (string * string)) (s : Sys C) :
  coherent snapshots s -> coherent (snapshots ++ more) s.
Proof.
  unfold coherent. destruct (pc s); rewrite ?fmap_app, ?elem_of_app; tauto.
Qed.

Lemma pair_in_fields (p : string * string) (snapshots : list (string * string)) :
  p ∈ snapshots -> p.1 ∈ snapshots.*1 /\ p.2 ∈ snapshots.*2.
Proof.
  intros H. split;
    [exact (list_elem_of_fmap_2 fst _ _ H) | exact (list_elem_of_fmap_2 snd _ _ H)].
Qed.

Lemma coherent_fields (snapshots : list (string * string)) (s : Sys C) :
  coherent snapshots s ->
  status_line_color (thread s) ∈ snapshots.*1 /\ status_line (thread s) ∈ snapshots.*2.
Proof.
  unfold coherent, snapshot_of.
  destruct (pc s); try (intros H; exact (pair_in_fields _ _ H)).
  - intros [_ H]. exact (pair_in_fields _ _ H).
  - intros [H1 H2]. split; [exact (proj1 (pair_in_fields _ _ H1)) | exact H2].
Qed.

Lemma reads_among_mono (snapshots more : list (string * string)) (l : Label) :
  reads_among snapshots l -> reads_among (snapshots ++ more) l.
Proof. destruct l; simpl; rewrite ?fmap_app, ?elem_of_app; tauto. Qed.

Lemma worker_step_coherent (snapshots : list (string * string)) (s : Sys C) :
  coherent snapshots s ->
  coherent (snapshots ++ computed [(worker_step C s).2]) (worker_step C s).1.
Proof.
  unfold coherent, worker_step, snapshot_of.
  destruct (pc s) eqn:Hpc; simpl; rewrite ?app_nil_r; try done.
  - destruct (call C EvArduinoUpdate (arduino_update C) (env s)) as [[[]|x] e];
      simpl; by rewrite app_nil_r.
  - destruct (status_line_stale (thread s)); simpl; [| by rewrite app_nil_r].
    destruct (make_statusline C (env s)) as [[p|x] e]; simpl.
    + intros H. rewrite !elem_of_app, list_elem_of_singleton. by split; [right | left].
    + by rewrite app_nil_r.
  - destruct snapshot as [color text]. simpl. intros [H1 H2].
    split; [done | exact (proj2 (pair_in_fields _ _ H2))].
  - tauto.
  - destruct (call C EvArduinoUpdate (arduino_update C) (env s)) as [[[]|x] e];
      simpl; by rewrite app_nil_r.
  - destruct (commands (thread s)) as [|command rest]; simpl; [by rewrite app_nil_r |].
    destruct (execute_command C command (env s)) as [[[]|x] e];
      simpl; by rewrite app_nil_r.
  - by rewrite Hpc.
Qed.

Lemma step_coherent (snapshots : list (string * string)) (a : Action) (s : Sys C) :
  coherent snapshots s ->
  coherent (snapshots ++ computed [(step C a s).2]) (step C a s).1
  /\ reads_among snapshots (step C a s).2.
Proof.
  intros H. destruct a; cbn [step].
  - split; [by apply worker_step_coherent |].
    unfold worker_step. destruct (pc s); simpl; try done.
    + by destruct (call C EvArduinoUpdate (arduino_update C) (env s)).
    + destruct (status_line_stale (thread s)); [| done].
      by destruct (make_statusline C (env s)) as [[] ?].
    + by destruct (call C EvArduinoUpdate (arduino_update C) (env s)).
    + destruct (commands (thread s)) as [|command rest]; [done |].
      by destruct (execute_command C command (env s)).
  - simpl. rewrite app_nil_r. split; [| done].
    revert H. unfold coherent. simpl. by destruct (pc s).
  - simpl. rewrite app_nil_r. split; [| by apply coherent_fields].
    revert H. unfold coherent. simpl. by destruct (pc s).
  - simpl. rewrite app_nil_r. split; [| by apply coherent_fields].
    revert H. unfold coherent. simpl. by destruct (pc s).
Qed.

Lemma run_coherent (snapshots : list (string * string)) (sched : list Action) (s : Sys C) :
  coherent snapshots s ->
  coherent (snapshots ++ computed (run C sched s).2) (run C sched s).1
  /\ Forall (reads_among (snapshots ++ computed (run C sched s).2)) (run C sched s).2.
Proof.
  revert snapshots s. induction sched as [|a sched IH]; intros snapshots s H.
  { simpl. rewrite app_nil_r. by split. }
  rewrite run_cons. cbn [fst snd]. rewrite computed_cons, app_assoc.
  destruct (step_coherent snapshots a s H) as [H1 R1].
  destruct (IH _ _ H1) as [H2 R2]. split; [done |].
  constructor; [| done]. rewrite <- app_assoc. by apply reads_among_mono.
Qed.

Lemma coherent_init (w : World C) : coherent [snapshot_of Thread_init] (Sys_init C w).
Proof. unfold coherent. simpl. by apply list_elem_of_singleton. Qed.

End Tearing.

Lemma Forall_List_filter {A : Type} (P : A -> Prop) (f : A -> bool) (l : list A) :
  Forall P l -> Forall P (List.filter f l).
Proof.
  induction 1 as [|x l Hx Hl IH]; simpl; [constructor |].
  destruct (f x); [by constructor | done].
Qed.

Lemma pairs_from (p0 : string * string) (rs : list Label) :
  Forall (reads_from p0) rs -> forall p, p ∈ pairs rs -> p = p0.
Proof.
  induction 1 as [|l rs Hl Hrs IH]; intros p; simpl; [by rewrite elem_of_nil |].
  destruct l; try apply IH.
  destruct rs as [|l' rs']; [by rewrite elem_of_nil |].
  destruct l'; try apply IH.
  rewrite elem_of_cons. intros [-> | H]; [| by apply IH].
  inversion Hrs as [|? ? Hl' _]; subst. simpl in Hl, Hl'. subst.
  by destruct p0.
Qed.

(** C9, as the code has it. The snapshot and the staleness flag are plain
    fields, read and written by the two threads with no lock: the worker
    stores the color and then the text as two steps, the dashboard reads them
    by two calls, and the steps of the two threads fall in any order. What a
    read returns is always the text, and what a color read returns the color,
    of the initial snapshot or of one [make_statusline] computed. A color
    read and the text read after it give the two halves of one such snapshot
    when the worker was not between its two stores and stored nothing
    meanwhile. *)
Theorem reads_come_from_snapshots (C : Collab) (w : World C) (sched more : list Action) :
  let start := Sys_init C w in
  let s1 := (run C sched start).1 in
  let ls := (run C (sched ++ more) start).2 in
  Forall (reads_among (snapshot_of Thread_init :: computed ls)) ls
  /\ ((forall text, pc s1 <> AtStoreText text) ->
      forallb (fun l => negb (is_store l)) (run C more s1).2 = true ->
      snapshot_of (thread s1) ∈ snapshot_of Thread_init :: computed (run C sched start).2
      /\ forall p, p ∈ observed (run C more s1).2 -> p = snapshot_of (thread s1)).
Proof.
  intros start s1 ls. split.
  { exact (proj2 (run_coherent C [snapshot_of Thread_init] (sched ++ more) start
                    (coherent_init C w))). }
  intros Hpc Hno. split.
  - pose proof (proj1 (run_coherent C [snapshot_of Thread_init] sched start
                         (coherent_init C w))) as H.
    fold s1 in H. unfold coherent in H.
    destruct (pc s1) eqn:E; try exact H; [exact (proj2 H) | by destruct (Hpc text)].
  - apply pairs_from. apply Forall_List_filter.
    exact (proj2 (run_no_store C more s1 Hno)).
Qed.

Lemma reads_come_from_snapshots_witness :
  let s1 := (run demo.collab (repeat Worker 4) (Sys_init demo.collab demo.w0)).1 in
  let more := [GetStatusLineColor; Worker; Enqueue "leds idle"; GetStatusLine; Worker] in
  ((forall text, pc s1 <> AtStoreText text)
   /\ forallb (fun l => negb (is_store l)) (run demo.collab more s1).2 = true)
  /\ observed (run demo.collab more s1).2
     = [("bg:#FF69B4", "State: HUMAN_TURN / Gantry: (0, 0) / Magnet: OFF")]
  /\ forall p, p ∈ observed (run demo.collab more s1).2 ->
               p = ("bg:#FF69B4", "State: HUMAN_TURN / Gantry: (0, 0) / Magnet: OFF").
Proof.
  split; [split; [discriminate | reflexivity] |]. split; [reflexivity |].
  apply (proj2 (reads_come_from_snapshots demo.collab demo.w0 (repeat Worker 4)
                  [GetStatusLineColor; Worker; Enqueue "leds idle"; GetStatusLine; Worker])).
  - discriminate.
  - reflexivity.
Defined.

(** C9 fails on the code: the dashboard reads the color after the worker has
    stored the color of its second snapshot and the text before the worker
    stores that snapshot's text, and sees the second color beside the first
    text, a pair no snapshot has. *)
Lemma torn_read_counterexample :
  let ls := (run demo.collab
                 (repeat Worker 8 ++ [GetStatusLineColor; GetStatusLine; Worker])
                 (Sys_init demo.collab demo.w0)).2 in
  computed ls
  = [("bg:#FF69B4", "State: HUMAN_TURN / Gantry: (0, 0) / Magnet: OFF");
     ("ansiblack bg:#66AAFF", "State: COMPUTER_TURN / Gantry: (0, 0) / Magnet: OFF")]
  /\ observed ls
     = [("ansiblack bg:#66AAFF", "State: HUMAN_TURN / Gantry: (0, 0) / Magnet: OFF")]
  /\ ~ (("ansiblack bg:#66AAFF", "State: HUMAN_TURN / Gantry: (0, 0) / Magnet: OFF")
        ∈ snapshot_of Thread_init :: computed ls).
Proof.
  split; [reflexivity |]. split; [reflexivity |].
  intros H. repeat (apply elem_of_cons in H as [H | H]; [discriminate |]).
  by apply elem_of_nil in H.
Qed.

(** * Further properties of the code *)

(** ** The tokens of a command line *)

Lemma concat_cons2 (sep x y : string) (l : list string) :
  String.concat sep (x :: y :: l) = x +:+ sep +:+ String.concat sep (y :: l).
Proof. reflexivity. Qed.

Lemma join_split (sep : ascii) (s : string) :
  str.join (String sep EmptyString) (str.split sep s) = s.
Proof.
  unfold str.join. induction s as [|c s IH]; [reflexivity |]. simpl.
  destruct (split_head sep s) as (tok & rest & E). rewrite E in IH |- *.
  destruct (decide (c = sep)) as [-> |].
  - rewrite concat_cons2, IH. reflexivity.
  - destruct rest as [|tok' rest]; [simpl in *; by rewrite IH |].
    rewrite concat_cons2 in IH |- *. rewrite append_String. by rewrite IH.
Qed.

Lemma split_tokens_free (sep : ascii) (s : string) :
  Forall (fun tok => free_of sep tok = true) (str.split sep s).
Proof.
  induction s as [|c s IH]; simpl; [by constructor |].
  destruct (decide (c = sep)); [by constructor |].
  destruct (str.split sep s) as [|tok rest].
  { constructor; [| done]. unfold free_of. simpl. by rewrite bool_decide_eq_false_2. }
  inversion IH as [|? ? Htok Hrest]; subst. constructor; [| done].
  unfold free_of in *. simpl. by rewrite bool_decide_eq_false_2, Htok.
Qed.

Lemma split_length (sep : ascii) (s : string) :
  length (str.split sep s) = S (count_char sep s).
Proof.
  induction s as [|c s IH]; simpl; [reflexivity |].
  destruct (decide (c = sep)); simpl; [by rewrite IH |].
  destruct (split_head sep s) as (tok & rest & E). rewrite E in IH |- *. exact IH.
Qed.

(** X1. The tokens of a command line, joined again with single spaces, are
    the line stripped and lowered: nothing of it is lost in the split. No
    token holds a space, and there is one token more than there are spaces
    in the stripped line. *)
Theorem parse_command_joins_back (command : string) :
  str.join " " (parse_command command) = str.lower (str.strip command)
  /\ Forall (fun tok => free_of " " tok = true) (parse_command command)
  /\ length (parse_command command)
     = S (count_char " " (str.lower (str.strip command))).
Proof.
  unfold parse_command. split; [apply join_split |].
  split; [apply split_tokens_free | apply split_length].
Qed.

Lemma lstrip_blank (ws : string) : blank ws = true -> str.lstrip ws = EmptyString.
Proof.
  induction ws as [|c ws IH]; simpl; [done |].
  intros [-> H]%andb_true_iff. by apply IH.
Qed.

Lemma lstrip_empty (s : string) : str.lstrip s = EmptyString -> blank s = true.
Proof.
  unfold blank. induction s as [|c s IH]; simpl; [done |].
  destruct (str.isspace c); [exact IH | discriminate].
Qed.

Lemma lstrip_head (s r : string) (c : ascii) :
  str.lstrip s = String c r -> str.isspace c = false.
Proof.
  induction s as [|d s IH]; simpl; [discriminate |].
  destruct (str.isspace d) eqn:E; [exact IH | congruence].
Qed.

Lemma rstrip_head (c : ascii) (r : string) :
  str.isspace c = false -> exists r', str.rstrip (String c r) = String c r'.
Proof.
  intros H. simpl. rewrite H. destruct (str.rstrip r); eauto.
Qed.

Lemma strip_empty (s : string) : str.strip s = EmptyString -> blank s = true.
Proof.
  unfold str.strip. intros H. apply lstrip_empty.
  destruct (str.lstrip s) as [|c r] eqn:E; [reflexivity |].
  destruct (rstrip_head c r (lstrip_head _ _ _ E)) as [r' E']. congruence.
Qed.

Lemma strip_head (s r : string) (c : ascii) :
  str.strip s = String c r -> str.isspace c = false.
Proof.
  unfold str.strip. destruct (str.lstrip s) as [|d r0] eqn:E; [discriminate |].
  destruct (rstrip_head d r0 (lstrip_head _ _ _ E)) as [r' E']. rewrite E'.
  intros [= <- _]. exact (lstrip_head _ _ _ E).
Qed.

(** X2. A command line that is empty or all white space has the empty string
    as its head and no argument, and is reported as an unknown command, the
    line quoted as it was typed, with nothing asked of the controller. No
    other line has an empty head. *)
Theorem blank_command_is_unknown (C : Collab) (command : string) (e : Env C) :
  (blank command = true ->
   parse_command command = [EmptyString]
   /\ execute_command C command e
      = (Return tt,
         mkEnv (world e)
               (trace e ++ [EvPrint [PStr ("Unknown Command: '" +:+ command +:+ "'")]])))
  /\ (forall args, parse_command command = EmptyString :: args -> blank command = true).
Proof.
  split.
  - intros H.
    assert (Hp : parse_command command = [EmptyString]).
    { unfold parse_command, str.strip. by rewrite (lstrip_blank _ H). }
    split; [exact Hp |].
    rewrite (execute_command_dispatch C _ _ _ Hp). apply dispatch_unknown_head.
    unfold known_heads. rewrite !not_elem_of_cons. repeat split; try discriminate.
    apply not_elem_of_nil.
  - intros args. unfold parse_command.
    destruct (str.strip command) as [|c r] eqn:E; [intros _; by apply strip_empty |].
    pose proof (strip_head _ _ _ E) as Hc. simpl.
    destruct (decide (str.lower_char c = " "%char)) as [Heq |].
    + rewrite <- isspace_lower_char, Heq in Hc. discriminate.
    + by destruct (str.split " " (str.lower r)).
Qed.

Lemma blank_command_is_unknown_witness :
  blank (" " +:+ TAB +:+ " ") = true
  /\ execute_command demo.collab (" " +:+ TAB +:+ " ") (demo.env0 demo.w0)
     = (Return tt,
        mkEnv (C:=demo.collab) demo.w0
              [EvPrint [PStr ("Unknown Command: '" +:+ (" " +:+ TAB +:+ " ") +:+ "'")]]).
Proof.
  split; [reflexivity |].
  exact (proj2 (proj1 (blank_command_is_unknown demo.collab (" " +:+ TAB +:+ " ")
                         (demo.env0 demo.w0)) eq_refl)).
Defined.

(** ** The branches of [execute_command] *)

Lemma dispatch_extra_arguments (C : Collab) (cmd : string) (args extra : list string)
    (command : string) :
  cmd ∈ known_heads -> arity cmd <= length args ->
  dispatch C cmd (args ++ extra) command = dispatch C cmd args command.
Proof.
  unfold known_heads. rewrite !elem_of_cons, elem_of_nil.
  intros [-> | [-> | [-> | [-> | [-> | [-> | [-> | []]]]]]]] Har;
    vm_compute in Har; pick_branch; try reflexivity;
    destruct args as [|a args]; try lia; try reflexivity.
  destruct args as [|a' args]; [simpl in Har; lia | reflexivity].
Qed.

(** X3. What follows the arguments a command reads is ignored: a line with
    further tokens after them does exactly what the line without them does
    ([bled] reads two arguments, [camshow] and [exit] none, the others one). *)
Theorem extra_arguments_ignored (C : Collab) (short long cmd : string)
    (args extra : list string) :
  parse_command short = cmd :: args ->
  parse_command long = cmd :: args ++ extra ->
  cmd ∈ known_heads ->
  arity cmd <= length args ->
  execute_command C long = execute_command C short.
Proof.
  intros Hs Hl Hin Har.
  rewrite (execute_command_dispatch C _ _ _ Hs), (execute_command_dispatch C _ _ _ Hl).
  rewrite (dispatch_known_head C cmd _ long short Hin).
  by apply dispatch_extra_arguments.
Qed.

Lemma extra_arguments_ignored_witness :
  (parse_command "bled hint on" = "bled" :: ["hint"; "on"]
   /\ parse_command "Bled Hint On right now" = "bled" :: ["hint"; "on"] ++ ["right"; "now"]
   /\ "bled" ∈ known_heads
   /\ arity "bled" <= length ["hint"; "on"])
  /\ execute_command demo.collab "Bled Hint On right now"
     = execute_command demo.collab "bled hint on".
Proof.
  assert (Hin : "bled" ∈ known_heads) by (unfold known_heads; set_solver).
  assert (Har : arity "bled" <= length ["hint"; "on"]) by (vm_compute; lia).
  split; [by repeat split |].
  exact (extra_arguments_ignored demo.collab "bled hint on" "Bled Hint On right now"
           "bled" ["hint"; "on"] ["right"; "now"] eq_refl eq_refl Hin Har).
Defined.

Lemma parse_two (h a : string) :
  token h = true -> token a = true ->
  parse_command (h +:+ " " +:+ a) = [str.lower h; str.lower a].
Proof.
  intros Hh Ha. rewrite parse_tokens by done.
  change (str.lower " " +:+ str.lower a) with (String " " (str.lower a)).
  rewrite split_app by (by apply token_free_of_space, token_lower).
  by rewrite split_free by (by apply token_free_of_space, token_lower).
Qed.

Lemma parse_three (h n a : string) :
  token h = true -> token n = true -> token a = true ->
  parse_command (h +:+ " " +:+ n +:+ " " +:+ a) = [str.lower h; str.lower n; str.lower a].
Proof.
  intros Hh Hn Ha.
  rewrite <- (append_assoc_string n " " a), <- (append_assoc_string " " (n +:+ " ") a).
  rewrite parse_tokens by done. rewrite !lower_app.
  change (str.lower " ") with " ".
  rewrite !append_assoc_string.
  change (" " +:+ str.lower n +:+ " " +:+ str.lower a)
    with (String " " (str.lower n +:+ String " " (str.lower a))).
  rewrite split_app by (by apply token_free_of_space, token_lower).
  rewrite split_app by (by apply token_free_of_space, token_lower).
  by rewrite split_free by (by apply token_free_of_space, token_lower).
Qed.

(** X4. [move], typed in any letter case, with a square after one space: the
    square name reaches [chess.parse_square] lowered; when it is accepted,
    the name [chess.square_name] gives the square is printed and the move is
    requested with [block=False], and the outcome is that of the request. *)
Theorem move_requests_the_square (C : Collab) (h n : string) (square : Square) (e : Env C) :
  token h = true -> token n = true ->
  str.lower h = "move" ->
  parse_square C (str.lower n) = Return square ->
  execute_command C (h +:+ " " +:+ n) e
  = let (r, w) := move_to_square C square false (world e) in
    (r, mkEnv w (trace e ++ [EvPrint [PStr "Moving to square:"; PStr (square_name C square)];
                             EvMoveToSquare square false])).
Proof.
  intros Hh Hn Eh Esq.
  rewrite (execute_command_dispatch C _ _ _ (parse_two h n Hh Hn)), Eh.
  pick_branch. run_monad. rewrite Esq. simpl.
  destruct (move_to_square C square false (world e)) as [r w].
  by rewrite <- app_assoc.
Qed.

Lemma move_requests_the_square_witness :
  (token "MOVE" = true /\ token "E4" = true /\ str.lower "MOVE" = "move"
   /\ demo.parse_square (str.lower "E4") = Return 28)
  /\ execute_command demo.collab "MOVE E4" (demo.env0 demo.w0)
     = (Return tt,
        mkEnv (C:=demo.collab) demo.w0
              [EvPrint [PStr "Moving to square:"; PStr "e4"]; EvMoveToSquare 28 false]).
Proof.
  split; [by repeat split |].
  exact (move_requests_the_square demo.collab "MOVE" "E4" 28 (demo.env0 demo.w0)
           eq_refl eq_refl eq_refl eq_refl).
Defined.

(** X5. [magnet] and [autoplay] followed by [on], in any letter case, switch
    the setting on: [magnet] prints ["Turning magnet ON"] and calls
    [set_electromagnet(True, block=False)], [autoplay] calls
    [set_autoplay(True)] and prints nothing. *)
Theorem magnet_autoplay_on (C : Collab) (h a : string) (e : Env C) :
  token h = true -> token a = true ->
  str.lower a = "on" ->
  (str.lower h = "magnet" ->
   execute_command C (h +:+ " " +:+ a) e
   = let (r, w) := set_electromagnet C true false (world e) in
     (r, mkEnv w (trace e ++ [EvPrint [PStr "Turning magnet"; PStr "ON"];
                              EvSetElectromagnet true false])))
  /\ (str.lower h = "autoplay" ->
      execute_command C (h +:+ " " +:+ a) e
      = let (r, w) := set_autoplay C true (world e) in
        (r, mkEnv w (trace e ++ [EvSetAutoplay true]))).
Proof.
  intros Hh Ha Ea.
  rewrite (execute_command_dispatch C _ _ _ (parse_two h a Hh Ha)), Ea.
  split; intros ->; pick_branch; run_monad.
  - destruct (set_electromagnet C true false (world e)) as [r w].
    by rewrite <- app_assoc.
  - reflexivity.
Qed.

Lemma magnet_autoplay_on_witness :
  (token "Magnet" = true /\ token "ON" = true /\ str.lower "ON" = "on")
  /\ execute_command demo.collab "Magnet ON" (demo.env0 demo.w0)
     = (Return tt,
        mkEnv (C:=demo.collab) (demo.mkWorld 0 true true true)
              [EvPrint [PStr "Turning magnet"; PStr "ON"]; EvSetElectromagnet true false]).
Proof.
  split; [by repeat split |].
  exact (proj1 (magnet_autoplay_on demo.collab "Magnet" "ON" (demo.env0 demo.w0)
                  eq_refl eq_refl eq_refl) eq_refl).
Defined.

(** X6. [bled], a button name and a state, each after one space and in any
    letter case: the name typed is lowered with the rest of the line and
    then upper-cased, and the button is the member of [Button] of that name;
    its light is switched on when the state typed is [on] and off otherwise,
    after ["Turning button light"], the member's name and the state are
    printed. *)
Theorem bled_sets_the_button_light (C : Collab) (h n a : string) (button : Button C)
    (e : Env C) :
  token h = true -> token n = true -> token a = true ->
  str.lower h = "bled" ->
  Button_getitem C (str.upper (str.lower n)) = Some button ->
  let enabled := bool_decide (str.lower a = "on") in
  execute_command C (h +:+ " " +:+ n +:+ " " +:+ a) e
  = let (r, w) := set_button_light C button enabled (world e) in
    (r, mkEnv w (trace e ++ [EvPrint [PStr "Turning button light";
                                      PStr (Button_name C button);
                                      PStr (ON_OFF enabled)];
                             EvSetButtonLight button enabled])).
Proof.
  intros Hh Hn Ha Eh Eb enabled.
  rewrite (execute_command_dispatch C _ _ _ (parse_three h n a Hh Hn Ha)), Eh.
  pick_branch. run_monad. rewrite Eb. simpl. fold enabled.
  destruct (set_button_light C button enabled (world e)) as [r w].
  by rewrite <- app_assoc.
Qed.

Lemma bled_sets_the_button_light_witness :
  (token "bled" = true /\ token "Hint" = true /\ token "ON" = true
   /\ str.lower "bled" = "bled"
   /\ demo.Button_getitem (str.upper (str.lower "Hint")) = Some demo.HINT)
  /\ execute_command demo.collab "bled Hint ON" (demo.env0 demo.w0)
     = (Return tt,
        mkEnv (C:=demo.collab) demo.w0
              [EvPrint [PStr "Turning button light"; PStr "HINT"; PStr "ON"];
               EvSetButtonLight (C:=demo.collab) demo.HINT true]).
Proof.
  split; [by repeat split |].
  exact (bled_sets_the_button_light demo.collab "bled" "Hint" "ON" demo.HINT
           (demo.env0 demo.w0) eq_refl eq_refl eq_refl eq_refl eq_refl).
Defined.

(** X7. [leds] and a pallete name after one space, in any letter case: the
    name typed is lowered with the rest of the line and then upper-cased, and
    the pallete is the member of [LEDPallete] of that name; the member's name
    is printed after ["Setting LEDs to Pallete:"] and the pallete is set. *)
Theorem leds_sets_the_pallete (C : Collab) (h n : string) (pallete : LEDPallete C)
    (e : Env C) :
  token h = true -> token n = true ->
  str.lower h = "leds" ->
  LEDPallete_getitem C (str.upper (str.lower n)) = Some pallete ->
  execute_command C (h +:+ " " +:+ n) e
  = let (r, w) := set_led_pallete C pallete (world e) in
    (r, mkEnv w (trace e ++ [EvPrint [PStr "Setting LEDs to Pallete:";
                                      PStr (LEDPallete_name C pallete)];
                             EvSetLedPallete pallete])).
Proof.
  intros Hh Hn Eh Ep.
  rewrite (execute_command_dispatch C _ _ _ (parse_two h n Hh Hn)), Eh.
  pick_branch. run_monad. rewrite Ep. simpl.
  destruct (set_led_pallete C pallete (world e)) as [r w].
  by rewrite <- app_assoc.
Qed.

Lemma leds_sets_the_pallete_witness :
  (token "LEDS" = true /\ token "Rainbow" = true /\ str.lower "LEDS" = "leds"
   /\ demo.LEDPallete_getitem (str.upper (str.lower "Rainbow")) = Some demo.RAINBOW)
  /\ execute_command demo.collab "LEDS Rainbow" (demo.env0 demo.w0)
     = (Return tt,
        mkEnv (C:=demo.collab) demo.w0
              [EvPrint [PStr "Setting LEDs to Pallete:"; PStr "RAINBOW"];
               EvSetLedPallete (C:=demo.collab) demo.RAINBOW]).
Proof.
  split; [by repeat split |].
  exact (leds_sets_the_pallete demo.collab "LEDS" "Rainbow" demo.RAINBOW
           (demo.env0 demo.w0) eq_refl eq_refl eq_refl eq_refl).
Defined.

(** ** The status line and a pass of the loop *)

Lemma make_statusline_returns (C : Collab) (e : Env C) (w : World C) :
  arduino_update C (world e) = (Return tt, w) ->
  make_statusline C e
  = (Return (statusline_of C w), mkEnv w (trace e ++ [EvArduinoUpdate])).
Proof.
  intros H. unfold make_statusline, statusline_of, statusline_text. run_monad.
  rewrite H. simpl. by destruct (decide (game_state C w = STARTING)).
Qed.

(** X8. [make_statusline] polls the controller once and builds the status
    line from the controller as that poll leaves it: the text is
    ["Starting..."] while the state is [STARTING], whatever the gantry and the
    magnet, and otherwise ["State: <name> / Gantry: <position> / Magnet: ON"]
    (or [OFF]); the color is that of the same state. When the poll raises, so
    does [make_statusline], and no status line is built. *)
Theorem make_statusline_after_update (C : Collab) (e : Env C) :
  match arduino_update C (world e) with
  | (Return _, w) =>
      make_statusline C e
      = (Return (dict_get GAME_STATE_STATUSLINE_COLORS (game_state C w)
                          "ansiblack bg:ansiwhite",
                 if decide (game_state C w = STARTING) then "Starting..."
                 else "State: " +:+ State_name (game_state C w)
                      +:+ " / Gantry: " +:+ gantry_pos C w
                      +:+ " / Magnet: " +:+ ON_OFF (electromagnet_enabled C w)),
         mkEnv w (trace e ++ [EvArduinoUpdate]))
  | (Raise x, w) => make_statusline C e = (Raise x, mkEnv w (trace e ++ [EvArduinoUpdate]))
  end.
Proof.
  destruct (arduino_update C (world e)) as [[[]|x] w] eqn:E.
  - exact (make_statusline_returns C e w E).
  - unfold make_statusline. run_monad. by rewrite E.
Qed.

(** X9. A pass of the loop of [run] with nothing queued, the two polls
    returning: the controller is polled twice, the status line stored is the
    one built after the first poll (the second poll is not reflected in it),
    the color is stored before the text, the flag stays set and the worker is
    back at the head of the loop. *)
Theorem idle_pass_of_the_loop (C : Collab) (s : Sys C) (w1 w2 : World C) :
  pc s = AtStale ->
  status_line_stale (thread s) = true ->
  commands (thread s) = [] ->
  arduino_update C (world (env s)) = (Return tt, w1) ->
  arduino_update C w1 = (Return tt, w2) ->
  run C (repeat Worker 5) s
  = (mkSys (mkThread (statusline_of C w1).2 (statusline_of C w1).1 true [])
           AtStale
           (mkEnv w2 (trace (env s) ++ [EvArduinoUpdate; EvArduinoUpdate])),
     [LComputed (statusline_of C w1);
      LStoreColor (statusline_of C w1).1;
      LStoreText (statusline_of C w1).2;
      LUpdated; LEmpty]).
Proof.
  intros Hpc Hst Hq H1 H2. destruct s as [t p e]. simpl in Hpc, Hst, Hq, H1. subst p.
  assert (E1 : worker_step C (mkSys t AtStale e)
               = (mkSys t (AtStoreColor (statusline_of C w1))
                        (mkEnv w1 (trace e ++ [EvArduinoUpdate])),
                  LComputed (statusline_of C w1))).
  { unfold worker_step. cbn [pc thread env].
    by rewrite Hst, (make_statusline_returns C e w1 H1). }
  change (repeat Worker 5) with (Worker :: repeat Worker 4).
  rewrite run_cons. cbn [step]. rewrite E1. cbn [fst snd].
  destruct t as [line color stale q]. simpl in Hst, Hq. subst stale q.
  simpl. unfold worker_step at 1 3. simpl. unfold call. simpl. rewrite H2. simpl.
  by rewrite <- app_assoc.
Qed.

Lemma idle_pass_of_the_loop_witness :
  let s := (run demo.collab [Worker] (Sys_init demo.collab demo.w0)).1 in
  (pc s = AtStale /\ status_line_stale (thread s) = true /\ commands (thread s) = [])
  /\ run demo.collab (repeat Worker 5) s
     = (mkSys (mkThread "State: HUMAN_TURN / Gantry: (0, 0) / Magnet: OFF" "bg:#FF69B4"
                        true [])
              AtStale
              (mkEnv (C:=demo.collab) (demo.mkWorld 3 false true true)
                     [EvArduinoUpdate; EvArduinoUpdate; EvArduinoUpdate]),
        [LComputed ("bg:#FF69B4", "State: HUMAN_TURN / Gantry: (0, 0) / Magnet: OFF");
         LStoreColor "bg:#FF69B4";
         LStoreText "State: HUMAN_TURN / Gantry: (0, 0) / Magnet: OFF";
         LUpdated; LEmpty]).
Proof.
  split; [by repeat split |].
  exact (idle_pass_of_the_loop demo.collab
           (run demo.collab [Worker] (Sys_init demo.collab demo.w0)).1
           (demo.mkWorld 2 false true true) (demo.mkWorld 3 false true true)
           eq_refl eq_refl eq_refl eq_refl eq_refl).
Defined.

(** ** The worker while it drains the queue *)

Section Draining.

Variable C : Collab.


End Draining.



(** ** The getters and the worker *)

Lemma step_getter_stale (C : Collab) (a : Action) (s : Sys C) :
  is_getter a = true ->
  status_line_stale (thread s) = true ->
  (step C a s).1 = s /\ is_read (step C a s).2 = true.
Proof.
  intros Ha Hst. destruct s as [[line color stale q] p e]. simpl in Hst. subst stale.
  by destruct a.
Qed.

Lemma step_not_getter (C : Collab) (a : Action) (s : Sys C) :
  is_getter a = false -> is_read (step C a s).2 = false.
Proof.
  destruct a; try discriminate; intros _; simpl; [| reflexivity].
  unfold worker_step. destruct (pc s); simpl; try reflexivity.
  - by destruct (call C EvArduinoUpdate (arduino_update C) (env s)).
  - destruct (status_line_stale (thread s)); [| reflexivity].
    by destruct (make_statusline C (env s)) as [[] ?].
  - by destruct (call C EvArduinoUpdate (arduino_update C) (env s)).
  - destruct (commands (thread s)) as [|command rest]; [reflexivity |].
    by destruct (execute_command C command (env s)).
Qed.

Lemma run_without_reads (C : Collab) (sched : list Action) (s : Sys C) :
  status_line_stale (thread s) = true ->
  run C (without_reads sched) s
  = ((run C sched s).1, without_read_labels (run C sched s).2).
Proof.
  revert s. induction sched as [|a sched IH]; intros s Hst; [reflexivity |].
  rewrite (run_cons C a sched s). unfold without_reads, without_read_labels.
  cbn [List.filter fst snd]. fold (without_reads sched).
  destruct (is_getter a) eqn:Ha; cbn [negb].
  - destruct (step_getter_stale C a s Ha Hst) as [E R]. rewrite E, R. cbn [negb].
    by apply IH.
  - rewrite (step_not_getter C a s Ha). cbn [negb].
    rewrite (run_cons C a (without_reads sched) s).
    rewrite (IH _ (step_stale C a s Hst)). reflexivity.
Qed.

(** X12. The dashboard's reads do not steer the worker. On any run from the
    thread's start, taking the calls of [get_status_line] and
    [get_status_line_color] out of the schedule changes nothing but what
    those calls returned: the worker, the queue, the stored status line, the
    controller and every other step are the same. *)
Theorem reads_do_not_steer_the_worker (C : Collab) (w : World C) (sched : list Action) :
  run C (without_reads sched) (Sys_init C w)
  = ((run C sched (Sys_init C w)).1,
     without_read_labels (run C sched (Sys_init C w)).2).
Proof. by apply run_without_reads. Qed.
